(** * ebook_secondbrain_pipeline: the Kindle clippings cleaner and its collaborators

    A shallow embedding of
      - [src/ebook_secondbrain_pipeline/kindle_cleaner.py]
      - [src/ibooks_notion_pipeline/json_to_notion_page.py] ([append_blocks])
      - [src/ibooks_notion_pipeline/epub_parser.py] ([cocoa_timestamp_to_datetime])
    together with the parts of the Python string library they call.

    A Python [str] is a sequence of Unicode code points; it is modelled as
    [list N].  Exceptions are an explicit outcome; [while] loops over an index
    are functions on that index driven by a fuel that is shown sufficient. *)

From Stdlib Require Import String Ascii.
From Stdlib Require Import List NArith ZArith Bool Lia Arith.
From Stdlib Require Import Sorting.Sorted Sorting.Permutation.
Import ListNotations.

Set Implicit Arguments.

(* ================================================================== *)
(** * Python strings *)
(* ================================================================== *)

Module Py.

Definition char := N.
Definition str := list char.

Definition str_eq_dec : forall a b : str, {a = b} + {a <> b} :=
  list_eq_dec N.eq_dec.

Definition str_eqb (a b : str) : bool :=
  if str_eq_dec a b then true else false.

(** ** String literals

    Literals of the source are written as Rocq strings (UTF-8 bytes) and
    decoded into code points. *)

Definition cont (b : N) : N := (b - 128)%N.

Fixpoint utf8_decode (bs : list N) : str :=
  match bs with
  | [] => []
  | b :: r =>
      if (b <? 128)%N then b :: utf8_decode r
      else if (b <? 224)%N then
        match r with
        | c1 :: r1 => ((b - 192) * 64 + cont c1)%N :: utf8_decode r1
        | _ => []
        end
      else if (b <? 240)%N then
        match r with
        | c1 :: c2 :: r2 =>
            ((b - 224) * 4096 + cont c1 * 64 + cont c2)%N :: utf8_decode r2
        | _ => []
        end
      else
        match r with
        | c1 :: c2 :: c3 :: r3 =>
            ((b - 240) * 262144 + cont c1 * 4096 + cont c2 * 64 + cont c3)%N
              :: utf8_decode r3
        | _ => []
        end
  end.

Fixpoint bytes_of (s : string) : list N :=
  match s with
  | EmptyString => []
  | String a r => N_of_ascii a :: bytes_of r
  end.

Definition lit (s : string) : str := utf8_decode (bytes_of s).

(** ** Character classes *)

Definition in_range (lo hi c : N) : bool := ((lo <=? c) && (c <=? hi))%N.

(** [str.isspace] on one character, which is also what [str.strip] with no
    argument removes and what [\s] matches in a [str] pattern. *)
Definition is_space (c : char) : bool :=
  in_range 9 13 c || in_range 28 32 c || (c =? 133)%N || (c =? 160)%N
  || (c =? 5760)%N || in_range 8192 8202 c || (c =? 8232)%N || (c =? 8233)%N
  || (c =? 8239)%N || (c =? 8287)%N || (c =? 12288)%N.

(** The line boundaries of [str.splitlines]. *)
Definition is_linebreak (c : char) : bool :=
  in_range 10 13 c || in_range 28 30 c || (c =? 133)%N
  || (c =? 8232)%N || (c =? 8233)%N.

(** The characters of Unicode category Nd come in runs of ten, digit 0 first;
    these are the first code points of the runs (Unicode 14, the table of
    CPython 3.11).  They are what [\d] matches in a [str] pattern and what
    [int] accepts as digits. *)
Definition decimal_zeros : list N :=
  [ 48; 1632; 1776; 1984; 2406; 2534; 2662; 2790; 2918; 3046; 3174; 3302;
    3430; 3558; 3664; 3792; 3872; 4160; 4240; 6112; 6160; 6470; 6608; 6784;
    6800; 6992; 7088; 7232; 7248; 42528; 43216; 43264; 43472; 43504; 43600;
    44016; 65296; 66720; 68912; 69734; 69872; 69942; 70096; 70384; 70736;
    70864; 71248; 71360; 71472; 71904; 72016; 72784; 73040; 73120; 92768;
    92864; 93008; 120782; 120792; 120802; 120812; 120822; 123200; 123632;
    125264; 130032 ]%N.

Fixpoint decimal_in (zs : list N) (c : char) : option N :=
  match zs with
  | [] => None
  | z :: r => if in_range z (z + 9) c then Some (c - z)%N else decimal_in r c
  end.

(** The digit value of a character, [None] when it is not a decimal digit. *)
Definition decimal_value (c : char) : option N := decimal_in decimal_zeros c.

Definition is_decimal (c : char) : bool :=
  match decimal_value c with Some _ => true | None => false end.

(** ** Stripping *)

Fixpoint lstrip_by (p : char -> bool) (s : str) : str :=
  match s with
  | [] => []
  | c :: r => if p c then lstrip_by p r else s
  end.

Definition rstrip_by (p : char -> bool) (s : str) : str :=
  rev (lstrip_by p (rev s)).

Definition lstrip : str -> str := lstrip_by is_space.
Definition rstrip : str -> str := rstrip_by is_space.
Definition strip (s : str) : str := rstrip (lstrip s).

(** [s.lstrip(chars)]: the characters of [chars] are a set. *)
Definition lstrip_chars (chars : str) : str -> str :=
  lstrip_by (fun c => existsb (N.eqb c) chars).

(** ** Prefixes, joining, splitting *)

Fixpoint startswith (s p : str) : bool :=
  match p, s with
  | [], _ => true
  | a :: p', b :: s' => (a =? b)%N && startswith s' p'
  | _ :: _, [] => false
  end.

Fixpoint join (sep : str) (parts : list str) : str :=
  match parts with
  | [] => []
  | [x] => x
  | x :: r => x ++ sep ++ join sep r
  end.

(** [s.split(sep, maxsplit)] for a one-character separator; [maxsplit = None]
    is the call without the second argument.  [cur] is the part being read. *)
Fixpoint split_from (sep : char) (maxsplit : option nat) (cur s : str)
  : list str :=
  match s with
  | [] => [cur]
  | c :: r =>
      if (c =? sep)%N then
        match maxsplit with
        | None => cur :: split_from sep None [] r
        | Some (S k) => cur :: split_from sep (Some k) [] r
        | Some O => split_from sep (Some O) (cur ++ [c]) r
        end
      else split_from sep maxsplit (cur ++ [c]) r
  end.

Definition split (sep : char) (maxsplit : option nat) (s : str) : list str :=
  split_from sep maxsplit [] s.

(** [s.splitlines()]: a line ends at a line boundary, [\r\n] counts as one,
    and no empty last line is produced. *)
Fixpoint splitlines_from (cur s : str) : list str :=
  match s with
  | [] => match cur with [] => [] | _ => [cur] end
  | c :: r =>
      if is_linebreak c then
        match r with
        | c' :: r' =>
            if ((c =? 13) && (c' =? 10))%N then cur :: splitlines_from [] r'
            else cur :: splitlines_from [] r
        | [] => [cur]
        end
      else splitlines_from (cur ++ [c]) r
  end.

Definition splitlines (s : str) : list str := splitlines_from [] s.

(** [s.zfill(width)]: zeros go after a leading sign. *)
Definition zfill (width : nat) (s : str) : str :=
  if (width <=? length s)%nat then s
  else
    let zeros := repeat 48%N (width - length s) in
    match s with
    | c :: r => if ((c =? 43) || (c =? 45))%N then c :: zeros ++ r
                else zeros ++ s
    | [] => zeros
    end.

(** The longest prefix whose characters satisfy [p], and what follows it. *)
Fixpoint span (p : char -> bool) (s : str) : str * str :=
  match s with
  | [] => ([], [])
  | c :: r => if p c then let (a, b) := span p r in (c :: a, b) else ([], s)
  end.

(** What is left of [s] after the literal [p], if [s] starts with it. *)
Fixpoint after_prefix (p s : str) : option str :=
  match p, s with
  | [], _ => Some s
  | a :: p', b :: s' => if (a =? b)%N then after_prefix p' s' else None
  | _ :: _, [] => None
  end.

(** ** [int(s)] for a string argument (base 10)

    Surrounding whitespace is dropped, one sign is allowed, digits are any
    decimal characters, and single underscores may separate digits.  The
    whitespace [int] drops is that of [strip] without the four separators
    U+001C to U+001F.  The interpreter's optional cap on the number of
    digits ([sys.set_int_max_str_digits]) is a run-time setting and is not
    part of this model. *)

Definition is_int_space (c : char) : bool :=
  is_space c && negb (in_range 28 31 c).

Fixpoint digits_value (acc : N) (prev_digit : bool) (s : str) : option N :=
  match s with
  | [] => if prev_digit then Some acc else None
  | c :: r =>
      match decimal_value c with
      | Some d => digits_value (acc * 10 + d) true r
      | None =>
          if ((c =? 95)%N && prev_digit)%bool then digits_value acc false r
          else None
      end
  end.

Definition int (s : str) : option Z :=
  match rstrip_by is_int_space (lstrip_by is_int_space s) with
  | c :: r =>
      if (c =? 45)%N then option_map (fun n => (- Z.of_N n)%Z) (digits_value 0 false r)
      else if (c =? 43)%N then option_map Z.of_N (digits_value 0 false r)
      else option_map Z.of_N (digits_value 0 false (c :: r))
  | [] => None
  end.

End Py.

Import Py.

(* ================================================================== *)
(** * Outcomes of Python code *)
(* ================================================================== *)

(** The exceptions the modelled code can raise. *)
Inductive exn : Type :=
| ValueError
| KeyError (key : str)
| FileNotFoundError
| OverflowError
| HTTPError.

(** A call returns a value or raises.  [OutOfFuel] is the third outcome of
    the functions that model a [while] loop with a fuel; it is shown below
    that the parser never ends there. *)
Inductive outcome (A : Type) : Type :=
| Ret (a : A)
| Raise (e : exn)
| OutOfFuel.

Arguments Raise {A} e.
Arguments OutOfFuel {A}.

Definition bind {A B : Type} (m : outcome A) (k : A -> outcome B) : outcome B :=
  match m with
  | Ret a => k a
  | Raise e => Raise e
  | OutOfFuel => OutOfFuel
  end.

Notation "x <- m ;; k" := (bind m (fun x => k))
  (at level 61, m at next level, right associativity).
Notation "' p <- m ;; k" := (bind m (fun x => match x with p => k end))
  (at level 61, p pattern, m at next level, right associativity).

(* ================================================================== *)
(** * kindle_cleaner.py *)
(* ================================================================== *)

Definition META_PREFIX : str := lit "- Deine Markierung".
Definition SEPARATOR : str := lit "==========".

Definition BOM : char := 65279%N.
Definition NEWLINE : char := 10%N.
Definition COMMA : char := 44%N.
Definition SPACE : char := 32%N.
Definition DASH : char := 45%N.

Definition is_empty (s : str) : bool :=
  match s with [] => true | _ => false end.

(** [title.lstrip(chr(0xFEFF)).strip()]: the argument of [lstrip] is the
    one-character string U+FEFF. *)
Definition normalize_title (title : str) : str :=
  strip (lstrip_chars [BOM] title).

(** The table [months] of [normalize_timestamp]. *)
Definition months : list (str * str) :=
  [ (lit "Januar", lit "01"); (lit "Februar", lit "02"); (lit "März", lit "03");
    (lit "April", lit "04"); (lit "Mai", lit "05"); (lit "Juni", lit "06");
    (lit "Juli", lit "07"); (lit "August", lit "08");
    (lit "September", lit "09"); (lit "Oktober", lit "10");
    (lit "November", lit "11"); (lit "Dezember", lit "12") ].

Fixpoint lookup (k : str) (table : list (str * str)) : option str :=
  match table with
  | [] => None
  | (k', v) :: r => if str_eqb k' k then Some v else lookup k r
  end.

(** Unpacking into two or three names raises [ValueError] when the list has
    another length; a missing key raises [KeyError].  The second split is
    evaluated before the table is read, as in the source. *)
Definition normalize_timestamp (raw : str) : outcome str :=
  match split COMMA (Some 1%nat) raw with
  | [_; rest] =>
      let rest := strip rest in
      match split SPACE (Some 2%nat) rest with
      | [day; month; year_time] =>
          match split SPACE (Some 1%nat) year_time with
          | [year; time] =>
              match lookup month months with
              | Some mm =>
                  Ret (year ++ lit "-" ++ mm ++ lit "-" ++ zfill 2 day
                         ++ lit "T" ++ time)
              | None => Raise (KeyError month)
              end
          | _ => Raise ValueError
          end
      | _ => Raise ValueError
      end
  | _ => Raise ValueError
  end.

(** The keys of the sort: an [int], or [float("inf")]. *)
Inductive sort_key : Type :=
| Finite (z : Z)
| Infinity.

(** [a < b] between such keys. *)
Definition key_lt (a b : sort_key) : bool :=
  match a, b with
  | Finite x, Finite y => (x <? y)%Z
  | Finite _, Infinity => true
  | Infinity, _ => false
  end.

Definition page_sort_key (page : option str) : sort_key :=
  match page with
  | None => Infinity
  | Some [] => Infinity
  | Some p =>
      match int (hd [] (split DASH None p)) with
      | Some z => Finite z
      | None => Infinity
      end
  end.

(** ** The three patterns

    [PAGE_PATTERN = Seite\s+([\d\-]+)].  The classes [\s] and [[\d\-]] are
    disjoint, so at a given start the pattern matches exactly when the
    longest run of whitespace after [Seite] is not empty and is followed by a
    non-empty run of digits and dashes; the group is the longest such run.
    [search] takes the leftmost start. *)
Definition page_match_at (s : str) : option str :=
  match after_prefix (lit "Seite") s with
  | None => None
  | Some r =>
      let (ws, r1) := span is_space r in
      if is_empty ws then None
      else
        let (g, _) := span (fun c => is_decimal c || (c =? DASH)%N) r1 in
        if is_empty g then None else Some g
  end.

Fixpoint page_search (s : str) : option str :=
  match page_match_at s with
  | Some g => Some g
  | None => match s with [] => None | _ :: r => page_search r end
  end.

(** [TIMESTAMP_PATTERN = Hinzugefügt am (.+)$].  [.] is any character but
    the newline, and [$] holds at the end of the string or before a newline
    that ends it. *)
Definition timestamp_match_at (s : str) : option str :=
  match after_prefix (lit "Hinzugefügt am ") s with
  | None => None
  | Some r =>
      let (g, tail) := span (fun c => negb (c =? NEWLINE)%N) r in
      if is_empty g then None
      else match tail with
           | [] => Some g
           | [_] => Some g
           | _ => None
           end
  end.

Fixpoint timestamp_search (s : str) : option str :=
  match timestamp_match_at s with
  | Some g => Some g
  | None => match s with [] => None | _ :: r => timestamp_search r end
  end.

(** ** Entries and the grouped collection *)

Record entry : Type := Entry {
  text : str;
  page : option str;
  timestamp : option str
}.

(** [grouped]: a dictionary keeps its keys in insertion order, so it is a
    list of (title, items) with distinct titles. *)
Definition dict := list (str * list entry).

(** [grouped[title].append(e)] on a [defaultdict(list)]. *)
Fixpoint dict_append (d : dict) (title : str) (e : entry) : dict :=
  match d with
  | [] => [(title, [e])]
  | (k, items) :: r =>
      if str_eqb k title then (k, items ++ [e]) :: r
      else (k, items) :: dict_append r title e
  end.

(** ** [list.sort(key=...)]

    The library sort is stable and compares keys with [<]; it is modelled by
    the stable insertion sort.  [lt] is [<] on the keys.  Which stable sort
    is taken makes no difference: [sort_by_unique] below shows that a sorted
    list that keeps equal keys in their order is the result of this one. *)
Section Sort.
Variables A K : Type.
Variable lt : K -> K -> bool.
Variable key : A -> K.

Fixpoint insert_by (x : A) (l : list A) : list A :=
  match l with
  | [] => [x]
  | y :: r => if lt (key y) (key x) then y :: insert_by x r
              else x :: y :: r
  end.

Fixpoint sort_by (l : list A) : list A :=
  match l with
  | [] => []
  | x :: r => insert_by x (sort_by r)
  end.
End Sort.

(** ** The parser *)

Definition is_blank (line : str) : bool := is_empty (strip line).

Definition is_noise (title line : str) : bool :=
  str_eqb line SEPARATOR || str_eqb line title || startswith line META_PREFIX.

(** The inner loop [while j < len(lines) and lines[j].strip()]. *)
Fixpoint body_loop (fuel : nat) (lines : list str) (title : str) (j : nat)
    (annotation_lines : list str) : outcome (nat * list str) :=
  if (j <? length lines)%nat && negb (is_blank (nth j lines [])) then
    match fuel with
    | O => OutOfFuel
    | S fuel' =>
        let line := strip (nth j lines []) in
        if is_noise title line
        then body_loop fuel' lines title (j + 1) annotation_lines
        else body_loop fuel' lines title (j + 1) (annotation_lines ++ [line])
    end
  else Ret (j, annotation_lines).

(** [normalize_timestamp(ts_match.group(1)) if ts_match else None] *)
Definition meta_timestamp (meta : str) : outcome (option str) :=
  match timestamp_search meta with
  | Some raw => ts <- normalize_timestamp raw ;; Ret (Some ts)
  | None => Ret None
  end.

(** One pass through the body of the outer loop at index [i]: the index at
    which the scan resumes and the (title, entry) that the pass appends to
    [grouped], if it appends one. *)
Definition read_record (lines : list str) (i : nat)
  : outcome (nat * option (str * entry)) :=
  let title := normalize_title (nth i lines []) in
  let meta := strip (nth (i + 1) lines []) in
  if is_empty title || negb (startswith meta META_PREFIX)
  then Ret (i + 1, None)%nat
  else
    let page := page_search meta in
    timestamp <- meta_timestamp meta ;;
    ' (j, annotation_lines) <-
      body_loop (length lines) lines title (i + 3) [] ;;
    let annotation_text := strip (join [NEWLINE] annotation_lines) in
    if is_empty annotation_text then Ret (j + 1, None)%nat
    else Ret (j + 1, Some (title, Entry annotation_text page timestamp))%nat.

Definition add_record (grouped : dict) (r : option (str * entry)) : dict :=
  match r with
  | Some (title, e) => dict_append grouped title e
  | None => grouped
  end.

(** The outer loop [while i < len(lines) - 2]; on naturals the test reads
    [i + 2 < len(lines)]. *)
Fixpoint scan_loop (fuel : nat) (lines : list str) (i : nat) (grouped : dict)
  : outcome dict :=
  if (i + 2 <? length lines)%nat then
    match fuel with
    | O => OutOfFuel
    | S fuel' =>
        ' (i', r) <- read_record lines i ;;
        scan_loop fuel' lines i' (add_record grouped r)
    end
  else Ret grouped.

Definition sort_items (grouped : dict) : dict :=
  map (fun kv =>
         (fst kv, sort_by key_lt (fun a => page_sort_key (page a)) (snd kv)))
      grouped.

Definition parse_kindle_annotations (text : str) : outcome dict :=
  let lines := map rstrip (splitlines text) in
  grouped <- scan_loop (length lines) lines 0 [] ;;
  Ret (sort_items grouped).

(** ** Raw file selection *)

(** A [datetime] at midnight, as [strptime] with [%Y%m%d] builds it. *)
Record date : Type := Date { year : N; month : N; day : N }.

Definition date_lt (a b : date) : bool :=
  ((year a <? year b)
   || ((year a =? year b)
       && ((month a <? month b)
           || ((month a =? month b) && (day a <? day b)))))%N.

Definition is_leap (y : N) : bool :=
  (((y mod 4 =? 0) && negb (y mod 100 =? 0)) || (y mod 400 =? 0))%N.

Definition days_in_month (y m : N) : N :=
  (if m =? 2 then (if is_leap y then 29 else 28)
   else if (m =? 4) || (m =? 6) || (m =? 9) || (m =? 11) then 30
   else 31)%N.

(** [datetime.strptime(s, "%Y%m%d")] on a string of eight decimal characters.
    The library matches [(\d\d\d\d)(1[0-2]|0[1-9]|[1-9])(3[0-1]|[1-2]\d|0[1-9]|[1-9]| [1-9])]
    and rejects a match that leaves characters over, so month and day must
    both be read from two characters; it then rejects year 0 and a day the
    month does not have.  Every rejection is a [ValueError]. *)
Definition strptime_Ymd (s : str) : outcome date :=
  match s with
  | [y1; y2; y3; y4; m1; m2; d1; d2] =>
      match decimal_value y1, decimal_value y2, decimal_value y3,
            decimal_value y4, decimal_value d2 with
      | Some a, Some b, Some c, Some d, Some e =>
          let y := (a * 1000 + b * 100 + c * 10 + d)%N in
          let month_ok :=
            (((m1 =? 49) && in_range 48 50 m2)
             || ((m1 =? 48) && in_range 49 57 m2))%N in
          let day_ok :=
            (((d1 =? 51) && in_range 48 49 d2)
             || in_range 49 50 d1
             || ((d1 =? 48) && in_range 49 57 d2))%N in
          if month_ok && day_ok then
            let m := ((m1 - 48) * 10 + (m2 - 48))%N in
            let dd := ((d1 - 48) * 10 + e)%N in
            if (1 <=? y)%N && (dd <=? days_in_month y m)%N
            then Ret (Date y m dd)
            else Raise ValueError
          else Raise ValueError
      | _, _, _, _, _ => Raise ValueError
      end
  | _ => Raise ValueError
  end.

(** [FILENAME_DATE_PATTERN.match(name)]: eight decimal characters, the
    literal suffix, and the end of the name ([$] also holds before a newline
    that ends it).  The result is the group [date]. *)
Definition filename_date (name : str) : option str :=
  let d := firstn 8 name in
  if (length d =? 8)%nat && forallb is_decimal d then
    match after_prefix (lit "_kindle_annotations_raw.txt") (skipn 8 name) with
    | Some [] => Some d
    | Some [c] => if (c =? NEWLINE)%N then Some d else None
    | _ => None
    end
  else None.

Definition extract_date_from_filename (name : str) : outcome date :=
  match filename_date name with
  | None => Raise ValueError
  | Some d => strptime_Ymd d
  end.

(** An entry of [RAW_DIR]: its name and whether it is a regular file.  The
    directory is the list of its entries in the order [iterdir] yields them;
    names in a directory are distinct. *)
Record dirent : Type := Dirent { name : str; is_file : bool }.
Definition directory := list dirent.

(** [path.unlink()]: removing a name that is not there raises. *)
Definition unlink (path : str) (dir : directory) : outcome directory :=
  if existsb (fun p => str_eqb (name p) path) dir
  then Ret (filter (fun p => negb (str_eqb (name p) path)) dir)
  else Raise FileNotFoundError.

(** The first loop: only [ValueError] is caught. *)
Fixpoint collect_dated (entries : list dirent) (dated_files : list (date * str))
  : outcome (list (date * str)) :=
  match entries with
  | [] => Ret dated_files
  | p :: r =>
      if negb (is_file p) then collect_dated r dated_files
      else
        match extract_date_from_filename (name p) with
        | Ret file_date => collect_dated r (dated_files ++ [(file_date, name p)])
        | Raise ValueError => collect_dated r dated_files
        | Raise e => Raise e
        | OutOfFuel => OutOfFuel
        end
  end.

(** The second loop, over the sorted [dated_files]. *)
Fixpoint delete_older (newest_date : date) (dated_files : list (date * str))
    (dir : directory) : outcome directory :=
  match dated_files with
  | [] => Ret dir
  | (file_date, path) :: r =>
      if date_lt file_date newest_date
      then dir' <- unlink path dir ;; delete_older newest_date r dir'
      else delete_older newest_date r dir
  end.

(** The function returns the newest file and leaves the directory changed. *)
Definition select_and_cleanup_raw_files (delete_old : bool) (raw_dir : directory)
  : outcome (str * directory) :=
  dated_files <- collect_dated raw_dir [] ;;
  match dated_files with
  | [] => Raise FileNotFoundError
  | first :: _ =>
      let dated_files := sort_by date_lt fst dated_files in
      let (newest_date, newest_file) := last dated_files first in
      if delete_old then
        dir' <- delete_older newest_date dated_files raw_dir ;;
        Ret (newest_file, dir')
      else Ret (newest_file, raw_dir)
  end.

(* ================================================================== *)
(** * json_to_notion_page.py: [append_blocks] *)
(* ================================================================== *)

(** [range(start, stop, step)] for a positive step: its length is the
    quotient, rounded up, of [stop - start] by [step]. *)
Definition range (start stop step : nat) : list nat :=
  map (fun k => start + k * step)%nat
      (seq 0 ((stop - start + step - 1) / step)).

(** [l[i:j]] for indices that are not negative. *)
Definition slice (A : Type) (l : list A) (i j : nat) : list A :=
  firstn (j - i) (skipn i l).

Section Notion.

(** A block is a JSON object; the function does not look into it. *)
Variable block : Type.

(** One [PATCH] to [/v1/blocks/{page_id}/children] with its JSON body. *)
Record request : Type := Request {
  url_page : str;
  children : list block
}.

(** The service: whether it answers the last request of a history of
    requests with a success status.  [raise_for_status] raises on any other
    answer. *)
Variable accepts : list request -> bool.

(** The loop of [append_blocks] over the start indices, with the requests
    sent so far; the function returns nothing, so the requests sent are
    kept next to its outcome. *)
Fixpoint send_batches (page_id : str) (blocks : list block)
    (starts : list nat) (sent : list request)
  : outcome unit * list request :=
  match starts with
  | [] => (Ret tt, sent)
  | i :: rest =>
      let batch := slice blocks i (i + 100) in
      let sent' := sent ++ [Request page_id batch] in
      if accepts sent' then send_batches page_id blocks rest sent'
      else (Raise HTTPError, sent')
  end.

Definition append_blocks (page_id : str) (blocks : list block)
  : outcome unit * list request :=
  send_batches page_id blocks (range 0 (length blocks) 100) [].

End Notion.

(* ================================================================== *)
(** * epub_parser.py: [cocoa_timestamp_to_datetime] *)
(* ================================================================== *)

(** The arithmetic of the library module [datetime] on whole seconds.  A
    [timedelta] is kept normalized, a [datetime] holds its fields, and both
    constructors and the addition raise [OverflowError] outside their range. *)
Module Cocoa.

Local Open Scope Z_scope.

Record timedelta : Type := Timedelta { days : Z; seconds : Z; microseconds : Z }.

Record datetime : Type := Datetime {
  year : Z; month : Z; day : Z;
  hour : Z; minute : Z; second : Z; microsecond : Z
}.

(** [timedelta(days, seconds=seconds, microseconds=microseconds)] for
    integers: the carries go upwards ([divmod] rounds down), and more than
    999999999 days either way is an overflow. *)
Definition new_timedelta (d s us : Z) : outcome timedelta :=
  let s := s + us / 1000000 in
  let us := us mod 1000000 in
  let d := d + s / 86400 in
  let s := s mod 86400 in
  if Z.abs d >? 999999999 then Raise OverflowError
  else Ret (Timedelta d s us).

Definition is_leap (y : Z) : bool :=
  (y mod 4 =? 0) && (negb (y mod 100 =? 0) || (y mod 400 =? 0)).

(** [_DAYS_IN_MONTH] and [_DAYS_BEFORE_MONTH], months 1 to 12. *)
Definition DAYS_IN_MONTH (m : Z) : Z :=
  nth (Z.to_nat m) [-1; 31; 28; 31; 30; 31; 30; 31; 31; 30; 31; 30; 31] 0.

Definition DAYS_BEFORE_MONTH (m : Z) : Z :=
  nth (Z.to_nat m)
      [-1; 0; 31; 59; 90; 120; 151; 181; 212; 243; 273; 304; 334] 0.

Definition days_before_year (y : Z) : Z :=
  let y := y - 1 in y * 365 + y / 4 - y / 100 + y / 400.

Definition days_in_month (y m : Z) : Z :=
  if (m =? 2) && is_leap y then 29 else DAYS_IN_MONTH m.

Definition days_before_month (y m : Z) : Z :=
  DAYS_BEFORE_MONTH m + (if (m >? 2) && is_leap y then 1 else 0).

(** [_ymd2ord]: day 1 is 0001-01-01. *)
Definition ymd2ord (y m d : Z) : Z :=
  days_before_year y + days_before_month y m + d.

Definition MAXORDINAL : Z := 3652059.

(** The end of [_ord2ymd]: month and day of day [n] (from 0) of a year. *)
Definition ord2md (n : Z) (leapyear : bool) : Z * Z :=
  let m := Z.shiftr (n + 50) 5 in
  let preceding :=
    DAYS_BEFORE_MONTH m + (if (m >? 2) && leapyear then 1 else 0) in
  if preceding >? n then
    let m := m - 1 in
    let preceding :=
      preceding
      - (DAYS_IN_MONTH m + (if (m =? 2) && leapyear then 1 else 0)) in
    (m, n - preceding + 1)
  else (m, n - preceding + 1).

(** [_ord2ymd]. *)
Definition ord2ymd (n : Z) : Z * Z * Z :=
  let n := n - 1 in
  let n400 := n / 146097 in
  let n := n mod 146097 in
  let y := n400 * 400 + 1 in
  let n100 := n / 36524 in
  let n := n mod 36524 in
  let n4 := n / 1461 in
  let n := n mod 1461 in
  let n1 := n / 365 in
  let n := n mod 365 in
  let y := y + n100 * 100 + n4 * 4 + n1 in
  if (n1 =? 4) || (n100 =? 4) then (y - 1, 12, 31)
  else
    let leapyear := (n1 =? 3) && (negb (n4 =? 24) || (n100 =? 3)) in
    let '(m, d) := ord2md n leapyear in
    (y, m, d).

Definition toordinal (dt : datetime) : Z :=
  ymd2ord (year dt) (month dt) (day dt).

(** [datetime.__add__] with a [timedelta]. *)
Definition datetime_add (dt : datetime) (other : timedelta) : outcome datetime :=
  delta <- new_timedelta (toordinal dt)
             (hour dt * 3600 + minute dt * 60 + second dt) (microsecond dt) ;;
  delta <- new_timedelta (days delta + days other)
             (seconds delta + seconds other)
             (microseconds delta + microseconds other) ;;
  let hour := seconds delta / 3600 in
  let rem := seconds delta mod 3600 in
  let minute := rem / 60 in
  let second := rem mod 60 in
  if (0 <? days delta) && (days delta <=? MAXORDINAL) then
    let '(y, m, d) := ord2ymd (days delta) in
    Ret (Datetime y m d hour minute second (microseconds delta))
  else Raise OverflowError.

(** The argument is [None] or a whole number of seconds; a database value
    with a fraction is a float and is not covered. *)
Definition cocoa_timestamp_to_datetime (cocoa_ts : option Z)
  : outcome (option datetime) :=
  match cocoa_ts with
  | None => Ret None
  | Some s =>
      delta <- new_timedelta 0 s 0 ;;
      dt <- datetime_add (Datetime 2001 1 1 0 0 0 0) delta ;;
      Ret (Some dt)
  end.

(** A datetime of the calendar: the ranges the constructor checks. *)
Definition valid (dt : datetime) : Prop :=
  1 <= year dt <= 9999 /\ 1 <= month dt <= 12
  /\ 1 <= day dt <= days_in_month (year dt) (month dt)
  /\ 0 <= hour dt <= 23 /\ 0 <= minute dt <= 59 /\ 0 <= second dt <= 59
  /\ microsecond dt = 0.

(** The whole seconds from 2001-01-01T00:00:00 to [dt]. *)
Definition seconds_since_2001 (dt : datetime) : Z :=
  (toordinal dt - ymd2ord 2001 1 1) * 86400
  + hour dt * 3600 + minute dt * 60 + second dt.

End Cocoa.

(* ================================================================== *)
(** * Decimal output *)
(* ================================================================== *)

(** The decimal digits of [n] in front of [acc], at most [fuel] of them. *)
Fixpoint digits_from (fuel : nat) (n : N) (acc : str) : str :=
  match fuel with
  | O => acc
  | S fuel' =>
      let acc' := (48 + n mod 10)%N :: acc in
      if (n <? 10)%N then acc' else digits_from fuel' (n / 10) acc'
  end.

(** [str(n)] for an [int] that is not negative.  A number has no more
    decimal digits than binary ones, which is the fuel. *)
Definition str_of_N (n : N) : str := digits_from (S (N.size_nat n)) n [].

(** [str(z)] for an [int]. *)
Definition str_of_Z (z : Z) : str :=
  if (z <? 0)%Z then DASH :: str_of_N (Z.abs_N z) else str_of_N (Z.to_N z).

(** [format(z, "0<width>d")], also [f"{z:0<width>d}"] and ["%0<width>d" % z]:
    zeros behind the sign up to the width. *)
Definition pad (width : nat) (z : Z) : str := zfill width (str_of_Z z).

(*MODELDEFS*)

(* ================================================================== *)
(** * Notions used in the statements *)
(* ================================================================== *)

(** The lines of an export as the parser sees them. *)
Definition lines_of (text : str) : list str := map rstrip (splitlines text).

(** The records in the order in which the scan appends them, each with the
    index of its title line.  It is the outer loop with the appended records
    listed instead of grouped; [scan_loop_records] relates the two. *)
Fixpoint records (fuel : nat) (lines : list str) (i : nat)
  : outcome (list (nat * (str * entry))) :=
  if (i + 2 <? length lines)%nat then
    match fuel with
    | O => OutOfFuel
    | S fuel' =>
        ' (i', r) <- read_record lines i ;;
        rest <- records fuel' lines i' ;;
        Ret (match r with Some te => (i, te) :: rest | None => rest end)
    end
  else Ret [].

(** The export of the scenario of the specification. *)
Definition deep_work_export : str :=
  join [NEWLINE]
    [ lit "Deep Work";
      lit "- Deine Markierung auf Seite 42 | Position 813-814 | Hinzugefügt am Donnerstag, 1. Januar 2025 09:00:00";
      lit "";
      lit "Focus is the new IQ.";
      lit "==========" ].

(** The groups that [normalize_timestamp] unpacks into [day], [month] and
    [year_time]: what [split(" ", 2)] makes of the text after the first comma. *)
Definition groups_after_comma (raw : str) : option (list str) :=
  match split COMMA (Some 1%nat) raw with
  | [_; rest] => Some (split SPACE (Some 2%nat) (strip rest))
  | _ => None
  end.

Definition shape_ok (raw : str) : Prop :=
  exists d m yt, groups_after_comma raw = Some [d; m; yt].

Definition month_name (raw : str) : option str :=
  match groups_after_comma raw with
  | Some [_; m; _] => Some m
  | _ => None
  end.

Definition german_months : list str := map fst months.

Definition month_unrecognized (raw : str) : Prop :=
  exists m, month_name raw = Some m /\ ~ In m german_months.

(** [trimmed s]: no whitespace at either end, the strings [strip] returns. *)
Definition trimmed (s : str) : Prop := lstrip s = s /\ lstrip (rev s) = rev s.

Fixpoint take_while (A : Type) (p : A -> bool) (l : list A) : list A :=
  match l with
  | [] => []
  | x :: r => if p x then x :: take_while p r else []
  end.

(** The body run that starts at index [j]: the lines from [j] up to the
    first blank line or the end of the input. *)
Definition body_run (lines : list str) (j : nat) : list str :=
  take_while (fun l => negb (is_blank l)) (skipn j lines).

(** The lines of a run that are kept: stripped, and not noise. *)
Definition kept_lines (title : str) (run : list str) : list str :=
  filter (fun l => negb (is_noise title l)) (map strip run).

(** [a <= b] on sort keys, and the key of an entry. *)
Definition key_le (a b : sort_key) : bool := negb (key_lt b a).
Definition page_key (e : entry) : sort_key := page_sort_key (page e).

(** The titles of a list in the order of their first occurrence. *)
Fixpoint first_occ (l : list str) : list str :=
  match l with
  | [] => []
  | x :: r => x :: filter (fun y => negb (str_eqb x y)) (first_occ r)
  end.

(** The entries recorded under [title], in the order of the records. *)
Definition titled (title : str) (recs : list (str * entry)) : list entry :=
  map snd (filter (fun te => str_eqb (fst te) title) recs).

(** Grouping a list of records from the empty dictionary. *)
Definition group_from (grouped : dict) (recs : list (str * entry)) : dict :=
  fold_left (fun d te => dict_append d (fst te) (snd te)) recs grouped.

(** [le_by lt key x y]: in a list sorted by [key], [x] may stand before [y]. *)
Definition le_by (A K : Type) (lt : K -> K -> bool) (key : A -> K) (x y : A)
  : Prop :=
  lt (key y) (key x) = false.

(** [same_key lt key k x]: the key of [x] is neither below nor above [k]. *)
Definition same_key (A K : Type) (lt : K -> K -> bool) (key : A -> K) (k : K)
    (x : A) : bool :=
  negb (lt (key x) k) && negb (lt k (key x)).

(** Membership of a title in a list of titles. *)
Definition mem (t : str) (l : list str) : bool := existsb (str_eqb t) l.

(** Equality of sort keys. *)
Definition key_eqb (a b : sort_key) : bool :=
  match a, b with
  | Finite x, Finite y => (x =? y)%Z
  | Infinity, Infinity => true
  | _, _ => false
  end.

(** The number that a string of decimal characters denotes. *)
Definition decimal_number (ds : str) : N :=
  fold_left (fun acc c => (acc * 10 + match decimal_value c with
                                      | Some d => d
                                      | None => 0
                                      end)%N) ds 0%N.

(** A small export whose body repeats the separator, the title and a
    metadata line, as lines. *)
Definition noisy_lines : list str :=
  [ lit "Deep Work";
    lit "- Deine Markierung auf Seite 42 | Position 813-814";
    lit "";
    lit "  Focus is the new IQ.";
    lit "==========";
    lit "Deep Work";
    lit "- Deine Markierung auf Seite 43";
    lit "Depth is rare.";
    lit "";
    lit "not part of the body" ].

(** A record whose body holds nothing but noise, followed by a record with a
    body. *)
Definition empty_body_export : str :=
  join [NEWLINE]
    [ lit "Deep Work";
      lit "- Deine Markierung auf Seite 7";
      lit "";
      lit "==========";
      lit "Deep Work";
      lit "";
      lit "Walden";
      lit "- Deine Markierung auf Seite 3";
      lit "";
      lit "Simplify.";
      lit "" ].

(** Two records of one title, the later page first. *)
Definition two_pages_export : str :=
  join [NEWLINE]
    [ lit "Deep Work";
      lit "- Deine Markierung auf Seite 43 | Position 900-901";
      lit "";
      lit "Depth is rare.";
      lit "";
      lit "==========";
      lit "Deep Work";
      lit "- Deine Markierung auf Seite 7-8 | Position 100-101";
      lit "";
      lit "Focus is the new IQ.";
      lit "";
      lit "==========" ].

(** [starts_with_bom s]: the first character of [s] is U+FEFF. *)
Definition starts_with_bom (s : str) : Prop := exists r, s = BOM :: r.

(** Two records whose title lines are [U+FEFF Walden] and the same line
    behind one space. *)
Definition bom_space_export : str :=
  join [NEWLINE]
    [ BOM :: lit "Walden";
      lit "- Deine Markierung auf Seite 3";
      lit "";
      lit "Simplify.";
      lit "";
      SPACE :: BOM :: lit "Walden";
      lit "- Deine Markierung auf Seite 4";
      lit "";
      lit "Simplify, simplify.";
      lit "" ].

(** Three records, two of them under one title written with and without
    marks and blanks. *)
Definition bom_export : str :=
  join [NEWLINE]
    [ BOM :: BOM :: lit "Walden";
      lit "- Deine Markierung auf Seite 3";
      lit "";
      lit "Simplify.";
      lit "";
      lit "Deep Work";
      lit "- Deine Markierung auf Seite 42";
      lit "";
      lit "Focus is the new IQ.";
      lit "";
      lit "   Walden  ";
      lit "- Deine Markierung auf Seite 4";
      lit "";
      lit "Simplify, simplify.";
      lit "" ].

(** The date of a directory entry that is a raw annotation file: a regular
    file whose name [extract_date_from_filename] accepts. *)
Definition dated (p : dirent) : option date :=
  if is_file p then
    match extract_date_from_filename (name p) with
    | Ret d => Some d
    | _ => None
    end
  else None.

(** A raw annotation file dated before [newest]. *)
Definition is_older (newest : date) (p : dirent) : bool :=
  match dated p with
  | Some d => date_lt d newest
  | None => false
  end.

(** The raw annotation files of a directory with their dates, in directory
    order. *)
Definition dated_list (dir : directory) : list (date * str) :=
  flat_map (fun p => match dated p with
                     | Some d => [(d, name p)]
                     | None => []
                     end) dir.

(** A directory with two raw files of different dates, two of the same
    newest date, a file of another name, a file with an impossible date and
    a subdirectory with a matching name. *)
Definition sample_dir : directory :=
  [ Dirent (lit "20250101_kindle_annotations_raw.txt") true;
    Dirent (lit "notes.txt") true;
    Dirent (lit "20250315_kindle_annotations_raw.txt") true;
    Dirent (lit "20241231_kindle_annotations_raw.txt") true;
    Dirent (lit "20251301_kindle_annotations_raw.txt") true;
    Dirent (lit "20260101_kindle_annotations_raw.txt") false;
    Dirent (lit "20250315_kindle_annotations_raw.txt" ++ [NEWLINE]) true ].

(** The batches [append_blocks] cuts a list into. *)
Definition batches_of (A : Type) (blocks : list A) : list (list A) :=
  map (fun i => slice blocks i (i + 100)) (range 0 (length blocks) 100).

(** Month and day are right for each day of a year, checked day by day. *)
Definition md_ok (leapyear : bool) (n : Z) : bool :=
  let '(m, d) := Cocoa.ord2md n leapyear in
  ((1 <=? m) && (m <=? 12) && (1 <=? d)
  && (d <=? (if (m =? 2) && leapyear then 29 else Cocoa.DAYS_IN_MONTH m))
  && (Cocoa.DAYS_BEFORE_MONTH m + (if (m >? 2) && leapyear then 1 else 0) + d
      =? n + 1))%Z.

(** Two records of one title in the layout of the scenario of the
    specification: each body is followed by the separator line at once. *)
Definition adjacent_records_export : str :=
  join [NEWLINE]
    [ lit "Deep Work";
      lit "- Deine Markierung auf Seite 43 | Position 900-901";
      lit "";
      lit "Depth is rare.";
      lit "==========";
      lit "Deep Work";
      lit "- Deine Markierung auf Seite 7-8 | Position 100-101";
      lit "";
      lit "Focus is the new IQ.";
      lit "==========" ].

(** The same two records in the other order. *)
Definition adjacent_records_export' : str :=
  join [NEWLINE]
    [ lit "Deep Work";
      lit "- Deine Markierung auf Seite 7-8 | Position 100-101";
      lit "";
      lit "Focus is the new IQ.";
      lit "==========";
      lit "Deep Work";
      lit "- Deine Markierung auf Seite 43 | Position 900-901";
      lit "";
      lit "Depth is rare.";
      lit "==========" ].

(** The literal end of the name of a raw annotation file. *)
Definition RAW_SUFFIX : str := lit "_kindle_annotations_raw.txt".

(** A date of the calendar, years 1 to 9999. *)
Definition calendar_date (d : date) : Prop :=
  (1 <= year d <= 9999 /\ 1 <= month d <= 12
   /\ 1 <= day d <= days_in_month (year d) (month d))%N.

(** A date as the file names carry it: year, month and day in four, two and
    two decimal digits. *)
Definition Ymd (d : date) : str :=
  pad 4 (Z.of_N (year d)) ++ pad 2 (Z.of_N (month d)) ++ pad 2 (Z.of_N (day d)).





(** [free sep s]: the character [sep] does not occur in [s]. *)
Definition free (sep : char) (s : str) : bool :=
  forallb (fun c => negb (c =? sep)%N) s.

(** A string of digits and dashes, the class of the page pattern. *)
Definition page_chars (g : str) : bool :=
  forallb (fun c => is_decimal c || (c =? DASH)%N) g.

(** The two-digit numbers of the table of months. *)
Definition month_numbers : list str := map snd months.

(** An export whose metadata line carries a month that is not in the
    table. *)
Definition bad_month_export : str :=
  join [NEWLINE]
    [ lit "Deep Work";
      lit "- Deine Markierung auf Seite 42 | Hinzugefügt am Montag, 1. May 2025 09:00:00";
      lit "";
      lit "Focus is the new IQ." ].

(*SPECDEFS*)

(* ================================================================== *)
(** * The string functions on examples *)
(* ================================================================== *)

Example lit_umlaut : lit "März" = [77; 228; 114; 122]%N.
Proof. reflexivity. Qed.

Example splitlines_ex :
  splitlines (lit "a" ++ [13; 10] ++ lit "b" ++ [10; 10] ++ lit "c" ++ [10])%N
  = [lit "a"; lit "b"; []; lit "c"].
Proof. reflexivity. Qed.

(* ================================================================== *)
(** * Facts about the string functions *)
(* ================================================================== *)

Section StripFacts.
Variable p : char -> bool.

Lemma lstrip_by_split (s : str) :
  exists w, s = w ++ lstrip_by p s /\ forallb p w = true.
Proof.
  induction s as [|c r IH]; simpl.
  - now exists [].
  - destruct (p c) eqn:E.
    + destruct IH as (w & Hw & Hp). exists (c :: w). simpl.
      rewrite E, Hp. split; [now f_equal | reflexivity].
    + now exists [].
Qed.

Lemma lstrip_by_idem (s : str) : lstrip_by p (lstrip_by p s) = lstrip_by p s.
Proof.
  induction s as [|c r IH]; simpl; [reflexivity|].
  destruct (p c) eqn:E; [exact IH | simpl; now rewrite E].
Qed.

Lemma lstrip_by_all (w s : str) :
  forallb p w = true -> lstrip_by p (w ++ s) = lstrip_by p s.
Proof.
  induction w as [|c r IH]; simpl; [reflexivity|].
  intros H. apply andb_true_iff in H as [-> H]. now apply IH.
Qed.

(** A string that starts with a character outside [p] is left alone. *)
Lemma lstrip_by_head (c : char) (s : str) :
  p c = false -> lstrip_by p (c :: s) = c :: s.
Proof. simpl. now intros ->. Qed.

Lemma lstrip_by_fixed (s : str) :
  lstrip_by p s = s <-> s = [] \/ exists c r, s = c :: r /\ p c = false.
Proof.
  split.
  - destruct s as [|c r]; [now left|]. intros H. right. exists c, r.
    split; [reflexivity|]. destruct (p c) eqn:E; [|reflexivity].
    simpl in H. rewrite E in H.
    destruct (lstrip_by_split r) as (w & Hw & _).
    apply (f_equal (@length _)) in H. apply (f_equal (@length _)) in Hw.
    rewrite length_app in Hw. simpl in H. lia.
  - intros [-> | (c & r & -> & E)]; [reflexivity | now apply lstrip_by_head].
Qed.

Lemma lstrip_by_app_fixed (s t : str) :
  s <> [] -> lstrip_by p s = s -> lstrip_by p (s ++ t) = s ++ t.
Proof.
  intros Hne H. apply lstrip_by_fixed in H as [-> | (c & r & -> & E)];
    [congruence|]. simpl. now rewrite E.
Qed.

Lemma rstrip_by_split (s : str) :
  exists w, s = rstrip_by p s ++ w /\ forallb p w = true.
Proof.
  unfold rstrip_by. destruct (lstrip_by_split (rev s)) as (w & Hw & Hp).
  exists (rev w). split.
  - rewrite <- rev_app_distr, <- Hw. now rewrite rev_involutive.
  - rewrite forallb_forall in *. intros x Hx. apply Hp. now apply in_rev.
Qed.

Lemma rstrip_by_all (s w : str) :
  forallb p w = true -> rstrip_by p (s ++ w) = rstrip_by p s.
Proof.
  intros H. unfold rstrip_by. rewrite rev_app_distr. f_equal.
  apply lstrip_by_all. rewrite forallb_forall in *. intros x Hx. apply H.
  now apply in_rev.
Qed.

Lemma rstrip_by_idem (s : str) : rstrip_by p (rstrip_by p s) = rstrip_by p s.
Proof.
  unfold rstrip_by. rewrite rev_involutive. now rewrite lstrip_by_idem.
Qed.

(** Removing characters on the right keeps a clean left end clean. *)
Lemma lstrip_rstrip_fixed (s : str) :
  lstrip_by p s = s -> lstrip_by p (rstrip_by p s) = rstrip_by p s.
Proof.
  intros H. destruct (rstrip_by_split s) as (w & Hw & _).
  destruct (rstrip_by p s) as [|c r] eqn:E; [reflexivity|].
  apply lstrip_by_fixed in H as [-> | (c' & r' & Hs & Hc)].
  - destruct w; discriminate.
  - rewrite Hs in Hw. simpl in Hw. injection Hw as -> _.
    now apply lstrip_by_head.
Qed.
End StripFacts.

Lemma strip_trimmed (s : str) : trimmed (strip s).
Proof.
  unfold trimmed, strip, rstrip, lstrip. split.
  - apply lstrip_rstrip_fixed. apply lstrip_by_idem.
  - unfold rstrip_by. rewrite rev_involutive. apply lstrip_by_idem.
Qed.

Lemma trimmed_strip (s : str) : trimmed s -> strip s = s.
Proof.
  intros [H1 H2]. unfold strip, rstrip, rstrip_by. fold lstrip.
  rewrite H1. fold lstrip. rewrite H2. apply rev_involutive.
Qed.

Lemma strip_idem (s : str) : strip (strip s) = strip s.
Proof. apply trimmed_strip, strip_trimmed. Qed.

Lemma trimmed_nil : trimmed [].
Proof. split; reflexivity. Qed.

Lemma strip_spaces (w s w' : str) :
  forallb is_space w = true -> forallb is_space w' = true ->
  strip (w ++ s ++ w') = strip s.
Proof.
  intros Hw Hw'. unfold strip, lstrip. rewrite lstrip_by_all by assumption.
  destruct (lstrip_by_split is_space s) as (v & Hv & Hp).
  unfold rstrip.
  assert (H : lstrip_by is_space (s ++ w') = lstrip_by is_space s ++ w'
              \/ lstrip_by is_space s = []).
  { rewrite Hv at 1. rewrite <- app_assoc. rewrite lstrip_by_all by assumption.
    destruct (lstrip_by is_space s) as [|c r] eqn:E; [now right|left].
    assert (Hc : is_space c = false).
    { pose proof (lstrip_by_idem is_space s) as Hi. rewrite E in Hi.
      apply lstrip_by_fixed in Hi as [? | (c' & r' & Hcr & Hc')];
        [discriminate | congruence]. }
    simpl. now rewrite Hc. }
  destruct H as [-> | H0].
  - now apply rstrip_by_all.
  - rewrite H0. rewrite Hv, H0, app_nil_r.
    rewrite lstrip_by_all by assumption.
    assert (Hall : forallb is_space (lstrip_by is_space w') = true).
    { destruct (lstrip_by_split is_space w') as (u & Hu & _).
      rewrite forallb_forall in *. intros x Hx. apply Hw'. rewrite Hu.
      apply in_or_app. now right. }
    replace (lstrip_by is_space w') with ([] ++ lstrip_by is_space w')
      by reflexivity.
    now rewrite rstrip_by_all.
Qed.

(* ================================================================== *)
(** * The timestamp conversion *)
(* ================================================================== *)

Section Timestamp.

Lemma str_eqb_eq (a b : str) : str_eqb a b = true <-> a = b.
Proof.
  unfold str_eqb. destruct (str_eq_dec a b); split; congruence.
Qed.

Lemma str_eqb_refl (a : str) : str_eqb a a = true.
Proof. now apply str_eqb_eq. Qed.

Lemma str_eqb_neq (a b : str) : str_eqb a b = false <-> a <> b.
Proof.
  unfold str_eqb. destruct (str_eq_dec a b); split; congruence.
Qed.

Lemma lookup_None (k : str) (table : list (str * str)) :
  lookup k table = None <-> ~ In k (map fst table).
Proof.
  induction table as [|[k' v] r IH]; simpl.
  - tauto.
  - destruct (str_eqb k' k) eqn:E.
    + apply str_eqb_eq in E. split; [discriminate | tauto].
    + apply str_eqb_neq in E. rewrite IH. tauto.
Qed.

Lemma normalize_timestamp_inv (raw iso : str) :
  normalize_timestamp raw = Ret iso ->
  exists d m yt y t mm,
    groups_after_comma raw = Some [d; m; yt]
    /\ split SPACE (Some 1%nat) yt = [y; t]
    /\ lookup m months = Some mm
    /\ iso = y ++ lit "-" ++ mm ++ lit "-" ++ zfill 2 d ++ lit "T" ++ t.
Proof.
  unfold normalize_timestamp, groups_after_comma.
  destruct (split COMMA (Some 1%nat) raw) as [|w [|rest [|? ?]]]; try discriminate.
  destruct (split SPACE (Some 2%nat) (strip rest)) as [|d [|m [|yt [|? ?]]]];
    try discriminate.
  destruct (split SPACE (Some 1%nat) yt) as [|y [|t [|? ?]]] eqn:Eyt;
    try discriminate.
  destruct (lookup m months) as [mm|] eqn:L; try discriminate.
  intros H. injection H as <-.
  exists d, m, yt, y, t, mm. repeat split; assumption.
Qed.

Lemma split_from_limit (sep : char) (s : str) :
  forall cur, split_from sep (Some O) cur s = [cur ++ s].
Proof.
  induction s as [|c r IH]; intros cur; simpl.
  - now rewrite app_nil_r.
  - destruct (c =? sep)%N; rewrite IH, <- app_assoc; reflexivity.
Qed.

Lemma split_from_next (sep : char) (k : nat) (a : str) :
  forall cur r,
    forallb (fun c => negb (c =? sep)%N) a = true ->
    split_from sep (Some (S k)) cur (a ++ sep :: r)
    = (cur ++ a) :: split_from sep (Some k) [] r.
Proof.
  induction a as [|c a' IH]; intros cur r Ha; simpl.
  - now rewrite N.eqb_refl, app_nil_r.
  - simpl in Ha. apply andb_true_iff in Ha as [Hc Ha].
    apply negb_true_iff in Hc. rewrite Hc, IH by assumption.
    now rewrite <- app_assoc.
Qed.

(** What the function makes of every input of the documented form
    [<weekday>, <day>. <month> <year> <time>]: the full stop stays with the
    day. *)
Lemma normalize_timestamp_well_formed (weekday d month mm y t : str) :
  forallb (fun c => negb (c =? COMMA)%N) weekday = true ->
  forallb (fun c => negb (c =? SPACE)%N) (d ++ lit ".") = true ->
  forallb (fun c => negb (c =? SPACE)%N) month = true ->
  forallb (fun c => negb (c =? SPACE)%N) y = true ->
  lookup month months = Some mm ->
  strip (d ++ lit ". " ++ month ++ [SPACE] ++ y ++ [SPACE] ++ t)
    = d ++ lit ". " ++ month ++ [SPACE] ++ y ++ [SPACE] ++ t ->
  normalize_timestamp
    (weekday ++ lit ", " ++ d ++ lit ". " ++ month ++ [SPACE] ++ y
       ++ [SPACE] ++ t)
  = Ret (y ++ lit "-" ++ mm ++ lit "-" ++ zfill 2 (d ++ lit ".")
           ++ lit "T" ++ t).
Proof.
  intros Hw Hd Hm Hy Hl Hs. unfold normalize_timestamp.
  change (lit ", ") with (COMMA :: [SPACE]).
  unfold split. cbn [app] in *.
  rewrite split_from_next, split_from_limit by assumption. cbn [app].
  pose proof (@strip_spaces [SPACE]
                (d ++ lit ". " ++ month ++ SPACE :: y ++ SPACE :: t) []
                eq_refl eq_refl) as Hsp.
  rewrite app_nil_r in Hsp. cbn [app] in Hsp. rewrite Hsp, Hs.
  change (lit ". ") with (lit "." ++ [SPACE]).
  replace (d ++ (lit "." ++ [SPACE]) ++ month ++ SPACE :: y ++ SPACE :: t)
    with ((d ++ lit ".") ++ SPACE :: month ++ SPACE :: y ++ SPACE :: t)
    by (now rewrite <- !app_assoc).
  rewrite split_from_next by assumption.
  rewrite split_from_next by assumption.
  rewrite split_from_limit. cbn [app].
  rewrite split_from_next by assumption.
  rewrite split_from_limit. cbn [app].
  now rewrite Hl.
Qed.

End Timestamp.

(** C2 (the code at the input of its own docstring).  On
    ["Donnerstag, 25. Dezember 2025 12:01:07"] the day is read as ["25."], the
    full stop is kept, and the result is ["2025-12-25.T12:01:07"], not the
    ["2025-12-25T12:01:07"] of the docstring.  The same happens on every
    input of the documented form: the day field of the result is the day
    with its full stop, padded as such. *)
Theorem normalize_timestamp_docstring_input :
  normalize_timestamp (lit "Donnerstag, 25. Dezember 2025 12:01:07")
    = Ret (lit "2025-12-25.T12:01:07")
  /\ normalize_timestamp (lit "Donnerstag, 25. Dezember 2025 12:01:07")
    <> Ret (lit "2025-12-25T12:01:07")
  /\ (forall weekday d month mm y t : str,
        forallb (fun c => negb (c =? COMMA)%N) weekday = true ->
        forallb (fun c => negb (c =? SPACE)%N) (d ++ lit ".") = true ->
        forallb (fun c => negb (c =? SPACE)%N) month = true ->
        forallb (fun c => negb (c =? SPACE)%N) y = true ->
        lookup month months = Some mm ->
        strip (d ++ lit ". " ++ month ++ [SPACE] ++ y ++ [SPACE] ++ t)
          = d ++ lit ". " ++ month ++ [SPACE] ++ y ++ [SPACE] ++ t ->
        normalize_timestamp
          (weekday ++ lit ", " ++ d ++ lit ". " ++ month ++ [SPACE] ++ y
             ++ [SPACE] ++ t)
        = Ret (y ++ lit "-" ++ mm ++ lit "-" ++ zfill 2 (d ++ lit ".")
                 ++ lit "T" ++ t)).
Proof.
  split; [vm_compute; reflexivity|].
  split; [vm_compute; discriminate|].
  apply normalize_timestamp_well_formed.
Qed.

(** C3.  A raw timestamp whose month name is not in the table, or that does
    not unpack into three groups after its first comma, makes
    [normalize_timestamp] raise [ValueError] or [KeyError]; it returns no
    value. *)
Theorem normalize_timestamp_hard_failure (raw : str) :
  month_unrecognized raw \/ ~ shape_ok raw ->
  (exists e, normalize_timestamp raw = Raise e
             /\ (e = ValueError \/ exists m, e = KeyError m))
  /\ (forall iso, normalize_timestamp raw <> Ret iso).
Proof.
  intros H.
  assert (Hno : forall iso, normalize_timestamp raw <> Ret iso).
  { intros iso Hiso.
    destruct (normalize_timestamp_inv _ Hiso)
      as (d & m & yt & y & t & mm & Hg & _ & Hl & _).
    destruct H as [(m' & Hm & Hnot) | Hshape].
    - unfold month_name in Hm. rewrite Hg in Hm. injection Hm as <-.
      apply lookup_None in Hnot. congruence.
    - apply Hshape. now exists d, m, yt. }
  split; [|exact Hno].
  unfold normalize_timestamp in *.
  destruct (split COMMA (Some 1%nat) raw) as [|w [|rest [|? ?]]];
    try (exists ValueError; split; [reflexivity | now left]).
  destruct (split SPACE (Some 2%nat) (strip rest)) as [|d [|m [|yt [|? ?]]]];
    try (exists ValueError; split; [reflexivity | now left]).
  destruct (split SPACE (Some 1%nat) yt) as [|y [|t [|? ?]]];
    try (exists ValueError; split; [reflexivity | now left]).
  destruct (lookup m months) as [mm|].
  - exfalso. eapply Hno. reflexivity.
  - exists (KeyError m). split; [reflexivity | right; now exists m].
Qed.

Lemma normalize_timestamp_hard_failure_witness :
  ((exists e, normalize_timestamp (lit "Donnerstag, 25. Dezembre 2025 12:01:07")
                = Raise e /\ (e = ValueError \/ exists m, e = KeyError m))
   /\ (forall iso, normalize_timestamp (lit "Donnerstag, 25. Dezembre 2025 12:01:07")
                     <> Ret iso))
  /\ ((exists e, normalize_timestamp (lit "Donnerstag, 25.12.2025") = Raise e
                  /\ (e = ValueError \/ exists m, e = KeyError m))
      /\ (forall iso, normalize_timestamp (lit "Donnerstag, 25.12.2025") <> Ret iso)).
Proof.
  split.
  - apply (@normalize_timestamp_hard_failure
             (lit "Donnerstag, 25. Dezembre 2025 12:01:07")).
    left. exists (lit "Dezembre"). split.
    + vm_compute. reflexivity.
    + apply lookup_None. vm_compute. reflexivity.
  - apply (@normalize_timestamp_hard_failure (lit "Donnerstag, 25.12.2025")).
    right. intros (d & m & yt & H). vm_compute in H. discriminate.
Defined.

(** C1 (the code at the scenario of the specification).  The five-line
    export yields one entry under ["Deep Work"] with text
    ["Focus is the new IQ."] and page ["42"], but its timestamp is
    ["2025-01-1.T09:00:00"]: the day keeps its full stop and so is not padded. *)
Theorem parse_deep_work_export :
  parse_kindle_annotations deep_work_export
    = Ret [ (lit "Deep Work",
             [ Entry (lit "Focus is the new IQ.") (Some (lit "42"))
                     (Some (lit "2025-01-1.T09:00:00")) ]) ]
  /\ parse_kindle_annotations (deep_work_export ++ [NEWLINE])
    = parse_kindle_annotations deep_work_export
  /\ parse_kindle_annotations deep_work_export
    <> Ret [ (lit "Deep Work",
              [ Entry (lit "Focus is the new IQ.") (Some (lit "42"))
                      (Some (lit "2025-01-01T09:00:00")) ]) ].
Proof.
  repeat split; try (vm_compute; reflexivity).
  vm_compute. discriminate.
Qed.

(* ================================================================== *)
(** * The body loop *)
(* ================================================================== *)

Section BodyLoop.

Implicit Types (lines : list str) (title : str) (acc : list str).

Lemma skipn_nth (A : Type) (d : A) (l : list A) (j : nat) :
  (j < length l)%nat -> skipn j l = nth j l d :: skipn (S j) l.
Proof.
  revert j. induction l as [|x r IH]; intros [|j] H; simpl in *; try lia.
  - reflexivity.
  - apply IH. lia.
Qed.

Lemma body_loop_eq fuel lines title j acc :
  body_loop fuel lines title j acc =
  if (j <? length lines)%nat && negb (is_blank (nth j lines [])) then
    match fuel with
    | O => OutOfFuel
    | S fuel' =>
        let line := strip (nth j lines []) in
        if is_noise title line
        then body_loop fuel' lines title (j + 1) acc
        else body_loop fuel' lines title (j + 1) (acc ++ [line])
    end
  else Ret (j, acc).
Proof. destruct fuel; reflexivity. Qed.

Lemma body_run_stop lines j :
  (length lines <= j)%nat \/ is_blank (nth j lines []) = true ->
  body_run lines j = [].
Proof.
  unfold body_run. intros [H | H].
  - now rewrite skipn_all2.
  - destruct (Nat.lt_ge_cases j (length lines)) as [Hlt | Hge].
    + rewrite (@skipn_nth str [] lines j Hlt). simpl. now rewrite H.
    + now rewrite skipn_all2.
Qed.

Lemma body_run_step lines j :
  (j < length lines)%nat -> is_blank (nth j lines []) = false ->
  body_run lines j = nth j lines [] :: body_run lines (S j).
Proof.
  unfold body_run. intros Hlt Hb. rewrite (@skipn_nth str [] lines j Hlt). simpl.
  now rewrite Hb.
Qed.

(** With fuel for the lines that remain, the loop returns: it stops behind
    the run and has appended the kept lines of the run. *)
Lemma body_loop_spec fuel lines title :
  forall j acc,
    (length lines - j <= fuel)%nat ->
    body_loop fuel lines title j acc
    = Ret ((j + length (body_run lines j))%nat,
           acc ++ kept_lines title (body_run lines j)).
Proof.
  induction fuel as [|fuel IH]; intros j acc Hf; rewrite body_loop_eq.
  - assert (Hj : (j <? length lines)%nat = false) by (apply Nat.ltb_ge; lia).
    rewrite Hj. simpl. rewrite body_run_stop by (left; lia).
    simpl. now rewrite Nat.add_0_r, app_nil_r.
  - destruct (j <? length lines)%nat eqn:Hj; simpl.
    + apply Nat.ltb_lt in Hj.
      destruct (is_blank (nth j lines [])) eqn:Hb; simpl.
      * rewrite body_run_stop by now right.
        simpl. now rewrite Nat.add_0_r, app_nil_r.
      * rewrite (body_run_step _ Hj Hb). unfold kept_lines. simpl.
        destruct (is_noise title (strip (nth j lines []))); simpl;
          rewrite IH by lia; unfold kept_lines;
          replace (j + 1)%nat with (S j) by lia;
          rewrite <- ?app_assoc; simpl; do 2 f_equal; lia.
    + apply Nat.ltb_ge in Hj. rewrite body_run_stop by now left.
      simpl. now rewrite Nat.add_0_r, app_nil_r.
Qed.

Lemma take_while_all (A : Type) (p : A -> bool) (l : list A) :
  forallb p (take_while p l) = true.
Proof.
  induction l as [|x r IH]; simpl; [reflexivity|].
  destruct (p x) eqn:E; simpl; [now rewrite E | reflexivity].
Qed.

Lemma take_while_prefix (A : Type) (p : A -> bool) (l : list A) :
  take_while p l = firstn (length (take_while p l)) l.
Proof.
  induction l as [|x r IH]; simpl; [reflexivity|].
  destruct (p x); simpl; [now f_equal | reflexivity].
Qed.

Lemma take_while_next (A : Type) (p : A -> bool) (l : list A) (d : A) :
  (length (take_while p l) < length l)%nat ->
  p (nth (length (take_while p l)) l d) = false.
Proof.
  induction l as [|x r IH]; simpl; [lia|].
  destruct (p x) eqn:E; simpl; [intros H; apply IH; lia | now intros _].
Qed.

(** The run consists of non-blank lines, they are the lines that follow [j]
    without a gap, and the run ends at a blank line or at the end. *)
Lemma body_run_maximal lines j :
  (j <= length lines)%nat ->
  let n := length (body_run lines j) in
  Forall (fun l => is_blank l = false) (body_run lines j)
  /\ body_run lines j = firstn n (skipn j lines)
  /\ ((j + n)%nat = length lines
      \/ ((j + n < length lines)%nat
          /\ is_blank (nth (j + n) lines []) = true)).
Proof.
  intros Hj n. subst n. unfold body_run.
  set (p := fun l : str => negb (is_blank l)).
  repeat split.
  - apply Forall_forall. intros l Hl.
    pose proof (take_while_all p (skipn j lines)) as H.
    rewrite forallb_forall in H. specialize (H l Hl). unfold p in H.
    now destruct (is_blank l).
  - apply take_while_prefix.
  - pose proof (take_while_prefix p (skipn j lines)) as Hpre.
    assert (Hlen : (length (take_while p (skipn j lines))
                    <= length (skipn j lines))%nat).
    { rewrite Hpre at 1. rewrite length_firstn. lia. }
    rewrite length_skipn in Hlen.
    destruct (Nat.eq_dec (j + length (take_while p (skipn j lines)))
                         (length lines)) as [E | NE]; [now left | right].
    split; [lia|].
    assert (Hlt : (length (take_while p (skipn j lines))
                   < length (skipn j lines))%nat)
      by (rewrite length_skipn; lia).
    pose proof (take_while_next p (skipn j lines) [] Hlt) as H.
    rewrite nth_skipn in H. unfold p in H.
    now apply negb_false_iff in H.
Qed.

End BodyLoop.

(* ================================================================== *)
(** * One record *)
(* ================================================================== *)

Section Record.

Implicit Types (lines run parts : list str) (title sep : str).

Lemma join_snoc sep parts x :
  parts <> [] -> join sep (parts ++ [x]) = join sep parts ++ sep ++ x.
Proof.
  induction parts as [|y [|z r] IH]; intros Hne.
  - congruence.
  - reflexivity.
  - change (join sep ((y :: z :: r) ++ [x]))
      with (y ++ sep ++ join sep ((z :: r) ++ [x])).
    rewrite IH by discriminate.
    change (join sep (y :: z :: r)) with (y ++ sep ++ join sep (z :: r)).
    now rewrite <- !app_assoc.
Qed.

Lemma join_starts sep x parts : exists t, join sep (x :: parts) = x ++ t.
Proof.
  destruct parts as [|y r].
  - exists []. simpl. now rewrite app_nil_r.
  - now exists (sep ++ join sep (y :: r)).
Qed.

Lemma join_ends sep parts x : exists t, join sep (parts ++ [x]) = t ++ x.
Proof.
  destruct parts as [|y r].
  - now exists [].
  - rewrite join_snoc by discriminate. exists (join sep (y :: r) ++ sep).
    now rewrite <- app_assoc.
Qed.

(** Joining trimmed non-empty lines gives a trimmed non-empty text. *)
Lemma join_trimmed sep parts :
  parts <> [] ->
  Forall (fun l => trimmed l /\ l <> []) parts ->
  trimmed (join sep parts) /\ join sep parts <> [].
Proof.
  intros Hne Hall.
  assert (Hfirst : exists x r, parts = x :: r) by
    (destruct parts as [|x r]; [congruence | now exists x, r]).
  destruct Hfirst as (x & r & Hx).
  destruct (exists_last Hne) as (init & y & Hy).
  assert (Hx' : trimmed x /\ x <> []).
  { rewrite Forall_forall in Hall. apply Hall. rewrite Hx. now left. }
  assert (Hy' : trimmed y /\ y <> []).
  { rewrite Forall_forall in Hall. apply Hall. rewrite Hy.
    apply in_or_app. right. now left. }
  destruct Hx' as [[Hx1 _] Hx2]. destruct Hy' as [[_ Hy1] Hy2].
  repeat split.
  - rewrite Hx. destruct (join_starts sep x r) as (t & ->).
    now apply lstrip_by_app_fixed.
  - rewrite Hy. destruct (join_ends sep init y) as (t & ->).
    rewrite rev_app_distr. apply lstrip_by_app_fixed; [|assumption].
    intros H. apply (f_equal (@rev _)) in H. rewrite rev_involutive in H.
    now apply Hy2.
  - rewrite Hx. destruct (join_starts sep x r) as (t & ->).
    destruct x; [congruence | discriminate].
Qed.

Lemma is_empty_true (s : str) : is_empty s = true <-> s = [].
Proof. destruct s; simpl; split; congruence. Qed.

Lemma is_empty_false (s : str) : is_empty s = false <-> s <> [].
Proof. destruct s; simpl; split; congruence. Qed.

(** The kept lines of a run of non-blank lines are trimmed, not empty and
    not noise. *)
Lemma kept_lines_clean title run :
  Forall (fun l => is_blank l = false) run ->
  Forall (fun l => (trimmed l /\ l <> []) /\ is_noise title l = false)
         (kept_lines title run).
Proof.
  intros H. apply Forall_forall. intros l Hl. unfold kept_lines in Hl.
  apply filter_In in Hl as [Hin Hn]. apply in_map_iff in Hin as (l0 & <- & Hl0).
  rewrite Forall_forall in H. specialize (H l0 Hl0).
  repeat split.
  - apply strip_trimmed.
  - apply strip_trimmed.
  - now apply is_empty_false.
  - now apply negb_true_iff.
Qed.

Lemma body_run_nonblank lines j :
  Forall (fun l => is_blank l = false) (body_run lines j).
Proof.
  unfold body_run. apply Forall_forall. intros l Hl.
  pose proof (take_while_all (fun l : str => negb (is_blank l)) (skipn j lines)) as H.
  rewrite forallb_forall in H. specialize (H l Hl). now apply negb_true_iff.
Qed.

(** The text of a record is the join of its kept lines; stripping changes
    nothing, and the text is empty exactly when no line is kept. *)
Lemma annotation_text_spec title run :
  Forall (fun l => is_blank l = false) run ->
  strip (join [NEWLINE] (kept_lines title run))
    = join [NEWLINE] (kept_lines title run)
  /\ (join [NEWLINE] (kept_lines title run) = [] <-> kept_lines title run = []).
Proof.
  intros H. pose proof (kept_lines_clean title H) as Hc.
  destruct (kept_lines title run) as [|x r] eqn:E.
  - split; [reflexivity | tauto].
  - assert (Hne : x :: r <> []) by discriminate.
    assert (Hall : Forall (fun l => trimmed l /\ l <> []) (x :: r)).
    { eapply Forall_impl; [|exact Hc]. simpl. tauto. }
    destruct (join_trimmed [NEWLINE] Hne Hall) as [Ht Hn].
    split; [now apply trimmed_strip | split; intros; congruence].
Qed.

(** What one pass of the outer loop does at the title line of a record. *)
Lemma read_record_spec lines i ts :
  let title := normalize_title (nth i lines []) in
  let meta := strip (nth (i + 1) lines []) in
  let run := body_run lines (i + 3) in
  let kept := kept_lines title run in
  title <> [] ->
  startswith meta META_PREFIX = true ->
  meta_timestamp meta = Ret ts ->
  read_record lines i
  = Ret ((i + 3 + length run + 1)%nat,
         match kept with
         | [] => None
         | _ => Some (title, Entry (join [NEWLINE] kept) (page_search meta) ts)
         end).
Proof.
  intros title meta run kept Ht Hm Hts. unfold read_record.
  fold title meta. apply is_empty_false in Ht. rewrite Ht, Hm, Hts. simpl.
  rewrite body_loop_spec by lia. simpl. fold run kept.
  destruct (annotation_text_spec title (body_run_nonblank lines (i + 3)))
    as [Hs He].
  fold run kept in Hs, He. rewrite Hs.
  destruct kept as [|x r] eqn:E.
  - reflexivity.
  - assert (Hne : join [NEWLINE] (x :: r) <> [])
      by (intros J; apply He in J; discriminate).
    destruct (join [NEWLINE] (x :: r)); [congruence | reflexivity].
Qed.

(** A pass that is not at a record moves on by one line. *)
Lemma read_record_skip lines i :
  normalize_title (nth i lines []) = []
  \/ startswith (strip (nth (i + 1) lines [])) META_PREFIX = false ->
  read_record lines i = Ret (S i, None).
Proof.
  intros H. unfold read_record.
  replace (is_empty (normalize_title (nth i lines []))
           || negb (startswith (strip (nth (i + 1) lines [])) META_PREFIX))
    with true.
  - f_equal. f_equal. lia.
  - symmetry. apply orb_true_iff. destruct H as [H | H].
    + left. now apply is_empty_true.
    + right. now rewrite H.
Qed.

(** Every pass that returns has moved forward; a pass that appends has read
    the title from its line, and the title and the text are not empty. *)
Lemma read_record_inv lines i i' r :
  read_record lines i = Ret (i', r) ->
  (i < i')%nat
  /\ forall title e, r = Some (title, e) ->
       title = normalize_title (nth i lines [])
       /\ title <> []
       /\ startswith (strip (nth (i + 1) lines [])) META_PREFIX = true
       /\ text e <> []
       /\ text e = join [NEWLINE] (kept_lines title (body_run lines (i + 3)))
       /\ page e = page_search (strip (nth (i + 1) lines []))
       /\ meta_timestamp (strip (nth (i + 1) lines [])) = Ret (timestamp e)
       /\ i' = (i + 3 + length (body_run lines (i + 3)) + 1)%nat.
Proof.
  intros H.
  destruct (is_empty (normalize_title (nth i lines []))) eqn:Ht.
  { rewrite read_record_skip in H by (left; now apply is_empty_true).
    injection H as <- <-. split; [lia | discriminate]. }
  destruct (startswith (strip (nth (i + 1) lines [])) META_PREFIX) eqn:Hm.
  2:{ rewrite read_record_skip in H by now right.
      injection H as <- <-. split; [lia | discriminate]. }
  apply is_empty_false in Ht.
  destruct (meta_timestamp (strip (nth (i + 1) lines []))) as [ts| |] eqn:Hts.
  - rewrite (read_record_spec lines i Ht Hm Hts) in H.
    injection H as <- <-. split; [lia|].
    intros title e He.
    destruct (kept_lines (normalize_title (nth i lines []))
                (body_run lines (i + 3))) as [|x l] eqn:Hk; [discriminate|].
    injection He as <- <-. simpl. rewrite Hk.
    repeat split; try assumption; try reflexivity.
    intros J.
    destruct (annotation_text_spec (normalize_title (nth i lines []))
                (body_run_nonblank lines (i + 3))) as [_ He].
    rewrite Hk in He. apply He in J. discriminate.
  - unfold read_record in H. apply is_empty_false in Ht.
    rewrite Ht, Hm, Hts in H. discriminate.
  - unfold read_record in H. apply is_empty_false in Ht.
    rewrite Ht, Hm, Hts in H. discriminate.
Qed.

End Record.

(* ================================================================== *)
(** * The scan *)
(* ================================================================== *)

Section Scan.

Implicit Types (lines : list str) (grouped : dict).

Lemma scan_loop_eq fuel lines i grouped :
  scan_loop fuel lines i grouped =
  if (i + 2 <? length lines)%nat then
    match fuel with
    | O => OutOfFuel
    | S fuel' =>
        ' (i', r) <- read_record lines i ;;
        scan_loop fuel' lines i' (add_record grouped r)
    end
  else Ret grouped.
Proof. destruct fuel; reflexivity. Qed.

Lemma records_eq fuel lines i :
  records fuel lines i =
  if (i + 2 <? length lines)%nat then
    match fuel with
    | O => OutOfFuel
    | S fuel' =>
        ' (i', r) <- read_record lines i ;;
        rest <- records fuel' lines i' ;;
        Ret (match r with Some te => (i, te) :: rest | None => rest end)
    end
  else Ret [].
Proof. destruct fuel; reflexivity. Qed.

(** The loop groups the records in the order in which it meets them. *)
Lemma scan_loop_records fuel lines :
  forall i grouped,
    scan_loop fuel lines i grouped
    = recs <- records fuel lines i ;; Ret (group_from grouped (map snd recs)).
Proof.
  induction fuel as [|fuel IH]; intros i grouped;
    rewrite scan_loop_eq, records_eq;
    destruct (i + 2 <? length lines)%nat; try reflexivity.
  destruct (read_record lines i) as [[i' r]| |]; simpl; try reflexivity.
  rewrite IH. destruct (records fuel lines i') as [rest| |]; simpl;
    try reflexivity.
  now destruct r as [[t e]|].
Qed.

Lemma normalize_timestamp_fuel raw : normalize_timestamp raw <> OutOfFuel.
Proof.
  unfold normalize_timestamp.
  destruct (split COMMA (Some 1%nat) raw) as [|w [|rest [|? ?]]]; try discriminate.
  destruct (split SPACE (Some 2%nat) (strip rest)) as [|d [|m [|yt [|? ?]]]];
    try discriminate.
  destruct (split SPACE (Some 1%nat) yt) as [|y [|t [|? ?]]]; try discriminate.
  destruct (lookup m months); discriminate.
Qed.

Lemma read_record_fuel lines i : read_record lines i <> OutOfFuel.
Proof.
  unfold read_record.
  destruct (is_empty _ || negb _); [discriminate|].
  unfold meta_timestamp.
  destruct (timestamp_search _) as [raw|]; simpl.
  - pose proof (normalize_timestamp_fuel raw) as H.
    destruct (normalize_timestamp raw); simpl; try congruence.
    rewrite body_loop_spec by lia. simpl.
    destruct (is_empty _); discriminate.
  - rewrite body_loop_spec by lia. simpl. destruct (is_empty _); discriminate.
Qed.

(** The fuel [len(lines)] is enough: every pass moves forward, so the loop
    returns or raises. *)
Lemma records_fuel fuel lines :
  forall i, (length lines - i <= fuel)%nat -> records fuel lines i <> OutOfFuel.
Proof.
  induction fuel as [|fuel IH]; intros i Hf; rewrite records_eq;
    destruct (i + 2 <? length lines)%nat eqn:Hc; try discriminate;
    apply Nat.ltb_lt in Hc; try lia.
  pose proof (read_record_fuel lines i) as Hr.
  destruct (read_record lines i) as [[i' r]| |] eqn:E; simpl;
    try congruence; try discriminate.
  destruct (read_record_inv _ _ E) as [Hlt _].
  specialize (IH i' ltac:(lia)).
  destruct (records fuel lines i'); simpl; try congruence; discriminate.
Qed.

(** Each listed record was appended by the pass at its index. *)
Lemma records_inv fuel lines :
  forall i recs,
    records fuel lines i = Ret recs ->
    Forall (fun kr => (i <= fst kr)%nat /\ (fst kr + 2 < length lines)%nat
                      /\ exists i', read_record lines (fst kr)
                                    = Ret (i', Some (snd kr)))
           recs.
Proof.
  induction fuel as [|fuel IH]; intros i recs; rewrite records_eq;
    destruct (i + 2 <? length lines)%nat eqn:Hc; try discriminate;
    try (intros H; injection H as <-; constructor).
  apply Nat.ltb_lt in Hc.
  destruct (read_record lines i) as [[i' r]| |] eqn:E; simpl; try discriminate.
  destruct (records fuel lines i') as [rest| |] eqn:R; simpl; try discriminate.
  intros H. injection H as <-.
  destruct (read_record_inv _ _ E) as [Hlt _].
  assert (Hrest : Forall (fun kr => (i <= fst kr)%nat
                    /\ (fst kr + 2 < length lines)%nat
                    /\ exists i', read_record lines (fst kr)
                                  = Ret (i', Some (snd kr))) rest).
  { eapply Forall_impl; [|exact (IH _ _ R)]. simpl. intros kr (H1 & H2 & H3).
    repeat split; [lia | assumption | assumption]. }
  destruct r as [te|]; [|assumption].
  constructor; [|assumption]. simpl. repeat split; [lia | assumption|].
  now exists i'.
Qed.

(** The records lie apart: the title line of a later record comes behind the
    body run of an earlier one and behind the line that ends that run. *)
Lemma records_apart fuel lines :
  forall i recs,
    records fuel lines i = Ret recs ->
    StronglySorted
      (fun a b => (fst a + 3 + length (body_run lines (fst a + 3)) < fst b)%nat)
      recs.
Proof.
  induction fuel as [|fuel IH]; intros i recs; rewrite records_eq;
    destruct (i + 2 <? length lines)%nat eqn:Hc; try discriminate;
    try (intros H; injection H as <-; constructor).
  destruct (read_record lines i) as [[i' r]| |] eqn:E; simpl; try discriminate.
  destruct (records fuel lines i') as [rest| |] eqn:R; simpl; try discriminate.
  intros H. injection H as <-.
  destruct r as [[t e]|]; [|exact (IH _ _ R)].
  constructor; [exact (IH _ _ R)|].
  destruct (read_record_inv _ _ E) as [_ Hinv].
  destruct (Hinv t e eq_refl) as (_ & _ & _ & _ & _ & _ & _ & Hi').
  pose proof (records_inv _ _ _ R) as Hall.
  eapply Forall_impl; [|exact Hall]. simpl. intros kr (Hle & _). lia.
Qed.

Lemma parse_fuel text : parse_kindle_annotations text <> OutOfFuel.
Proof.
  unfold parse_kindle_annotations. rewrite scan_loop_records.
  pose proof (@records_fuel (length (map rstrip (splitlines text)))
                (map rstrip (splitlines text)) 0 ltac:(lia)) as H.
  destruct (records _ _ 0); simpl; congruence.
Qed.

End Scan.

(* ================================================================== *)
(** * The stable sort *)
(* ================================================================== *)

Section SortFacts.
Variables A K : Type.
Variable lt : K -> K -> bool.
Variable key : A -> K.

(** [<] on the keys is a strict weak order. *)
Hypothesis lt_asym : forall a b, lt a b = true -> lt b a = false.
Hypothesis le_trans :
  forall a b c, lt b a = false -> lt c b = false -> lt c a = false.


Lemma insert_by_perm (x : A) (l : list A) :
  Permutation (x :: l) (insert_by lt key x l).
Proof.
  induction l as [|y r IH]; simpl; [apply Permutation_refl|].
  destruct (lt (key y) (key x)); [|apply Permutation_refl].
  eapply Permutation_trans; [apply perm_swap|]. now apply perm_skip.
Qed.

Lemma sort_by_perm (l : list A) : Permutation l (sort_by lt key l).
Proof.
  induction l as [|x r IH]; simpl; [apply perm_nil|].
  eapply Permutation_trans; [apply perm_skip, IH | apply insert_by_perm].
Qed.

Lemma insert_by_sorted (x : A) (l : list A) :
  StronglySorted (le_by lt key) l -> StronglySorted (le_by lt key) (insert_by lt key x l).
Proof.
  induction l as [|y r IH]; intros Hs; simpl.
  - constructor; constructor.
  - inversion Hs as [|? ? Hr Hy]; subst.
    destruct (lt (key y) (key x)) eqn:E.
    + constructor; [now apply IH|].
      apply Forall_forall. intros z Hz.
      apply (Permutation_in _ (Permutation_sym (insert_by_perm x r))) in Hz.
      destruct Hz as [<- | Hz].
      * unfold le_by. now apply lt_asym.
      * rewrite Forall_forall in Hy. now apply Hy.
    + constructor; [assumption|]. constructor; [exact E|].
      apply Forall_forall. intros z Hz. rewrite Forall_forall in Hy.
      unfold le_by in *. eapply le_trans; [exact E | now apply Hy].
Qed.

Lemma sort_by_sorted (l : list A) : StronglySorted (le_by lt key) (sort_by lt key l).
Proof.
  induction l as [|x r IH]; simpl; [constructor | now apply insert_by_sorted].
Qed.

(** Stability: the elements picked by a test that only picks elements none
    of which is less than another keep their order. *)
Section Stable.
Variable f : A -> bool.
Hypothesis f_class :
  forall x y, f x = true -> f y = true -> lt (key y) (key x) = false.

Lemma insert_by_filter (x : A) (l : list A) :
  filter f (insert_by lt key x l) = filter f (x :: l).
Proof.
  induction l as [|y r IH]; [reflexivity|].
  simpl insert_by. destruct (lt (key y) (key x)) eqn:E; [|reflexivity].
  simpl. simpl in IH. rewrite IH.
  destruct (f x) eqn:Fx, (f y) eqn:Fy; try reflexivity.
  rewrite (f_class Fx Fy) in E. discriminate.
Qed.

Lemma sort_by_filter (l : list A) :
  filter f (sort_by lt key l) = filter f l.
Proof.
  induction l as [|x r IH]; [reflexivity|].
  simpl sort_by. rewrite insert_by_filter. simpl. now rewrite IH.
Qed.
End Stable.

(** The last element of a sorted list is a greatest one. *)
Lemma sorted_last (l : list A) (d : A) :
  StronglySorted (le_by lt key) l -> forall x, In x l -> x = last l d \/ le_by lt key x (last l d).
Proof.
  induction l as [|y r IH]; intros Hs x Hx; [destruct Hx|].
  inversion Hs as [|? ? Hr Hy]; subst.
  destruct r as [|z r'].
  - destruct Hx as [<- | []]. now left.
  - change (last (y :: z :: r') d) with (last (z :: r') d).
    destruct Hx as [<- | Hx]; [|now apply IH].
    right. rewrite Forall_forall in Hy. apply Hy.
    destruct (@exists_last _ (z :: r') ltac:(discriminate)) as (init & w & E).
    rewrite E. rewrite last_last. apply in_or_app. right. now left.
Qed.

Lemma last_in (l : list A) (d : A) : l <> [] -> In (last l d) l.
Proof.
  intros H. destruct (exists_last H) as (init & w & ->).
  rewrite last_last. apply in_or_app. right. now left.
Qed.

(** The test that picks the elements whose key is neither below nor above
    [k]. *)
Lemma same_key_class (k : K) (x y : A) :
  same_key lt key k x = true -> same_key lt key k y = true ->
  lt (key y) (key x) = false.
Proof.
  unfold same_key. rewrite !andb_true_iff, !negb_true_iff.
  intros [_ Hx] [Hy _]. exact (le_trans Hx Hy).
Qed.

Lemma lt_irrefl (a : K) : lt a a = false.
Proof.
  destruct (lt a a) eqn:E; [|reflexivity]. now rewrite (lt_asym E) in E.
Qed.

Lemma same_key_refl (x : A) : same_key lt key (key x) x = true.
Proof. unfold same_key. now rewrite lt_irrefl. Qed.

Lemma sorted_head_le (x y : A) (r : list A) :
  StronglySorted (le_by lt key) (x :: r) -> In y r -> lt (key y) (key x) = false.
Proof.
  intros Hs Hy. inversion Hs as [|? ? _ Hall]; subst.
  rewrite Forall_forall in Hall. now apply Hall.
Qed.

(** Two sorted lists that hold the same elements of every key, in the same
    order, are equal: a stable sort has one possible result. *)
Lemma stable_sorted_unique (l1 : list A) :
  forall l2,
    StronglySorted (le_by lt key) l1 -> StronglySorted (le_by lt key) l2 ->
    (forall k, filter (same_key lt key k) l1 = filter (same_key lt key k) l2) ->
    l1 = l2.
Proof.
  induction l1 as [|x r1 IH]; intros l2 S1 S2 Hf.
  - destruct l2 as [|y r2]; [reflexivity|].
    specialize (Hf (key y)). simpl in Hf. rewrite same_key_refl in Hf.
    discriminate.
  - destruct l2 as [|y r2].
    { specialize (Hf (key x)). simpl in Hf. rewrite same_key_refl in Hf.
      discriminate. }
    assert (Hxy : x = y).
    { pose proof (Hf (key x)) as Fx. pose proof (Hf (key y)) as Fy.
      simpl in Fx, Fy. rewrite same_key_refl in Fx, Fy.
      destruct (same_key lt key (key x) y) eqn:Sy; [congruence|].
      destruct (same_key lt key (key y) x) eqn:Sx; [congruence|].
      assert (Hx : In x r2).
      { assert (H : In x (filter (same_key lt key (key x)) r2))
          by (rewrite <- Fx; now left).
        now apply filter_In in H. }
      assert (Hy : In y r1).
      { assert (H : In y (filter (same_key lt key (key y)) r1))
          by (rewrite Fy; now left).
        now apply filter_In in H. }
      pose proof (@sorted_head_le y x r2 S2 Hx) as L1.
      pose proof (@sorted_head_le x y r1 S1 Hy) as L2.
      unfold same_key in Sy. rewrite L1, L2 in Sy. discriminate. }
    subst y. f_equal.
    inversion S1; inversion S2; subst.
    apply IH; try assumption.
    intros k. specialize (Hf k). simpl in Hf.
    destruct (same_key lt key k x); [now injection Hf | assumption].
Qed.

(** So every sorted list that keeps the elements of every key in the order
    of [l] is the list [sort_by] returns. *)
Lemma sort_by_unique (l l' : list A) :
  StronglySorted (le_by lt key) l' ->
  (forall k, filter (same_key lt key k) l' = filter (same_key lt key k) l) ->
  l' = sort_by lt key l.
Proof.
  intros Hs Hf. apply stable_sorted_unique; try assumption.
  - apply sort_by_sorted.
  - intros k. rewrite Hf. symmetry. apply sort_by_filter.
    intros x y. apply same_key_class.
Qed.

Lemma sort_by_nil (l : list A) : sort_by lt key l = [] -> l = [].
Proof.
  intros H. pose proof (sort_by_perm l) as P. rewrite H in P.
  now apply Permutation_nil, Permutation_sym.
Qed.
End SortFacts.

Section KeyOrder.

Lemma key_lt_asym a b : key_lt a b = true -> key_lt b a = false.
Proof.
  destruct a, b; simpl; try congruence. rewrite !Z.ltb_lt, Z.ltb_ge. lia.
Qed.

Lemma key_le_trans a b c :
  key_lt b a = false -> key_lt c b = false -> key_lt c a = false.
Proof.
  destruct a, b, c; simpl; try congruence. rewrite !Z.ltb_ge. lia.
Qed.

Lemma date_lt_spec a b :
  date_lt a b = true <->
  (year a < year b
   \/ (year a = year b
       /\ (month a < month b \/ (month a = month b /\ day a < day b))))%N.
Proof.
  unfold date_lt.
  rewrite !orb_true_iff, !andb_true_iff, !orb_true_iff, !andb_true_iff,
    !N.ltb_lt, !N.eqb_eq.
  tauto.
Qed.

Lemma date_lt_false a b :
  date_lt a b = false <->
  ~ (year a < year b
     \/ (year a = year b
         /\ (month a < month b \/ (month a = month b /\ day a < day b))))%N.
Proof.
  rewrite <- date_lt_spec. destruct (date_lt a b); split; congruence.
Qed.

Lemma date_lt_asym a b : date_lt a b = true -> date_lt b a = false.
Proof. rewrite date_lt_spec, date_lt_false. lia. Qed.

Lemma date_le_trans a b c :
  date_lt b a = false -> date_lt c b = false -> date_lt c a = false.
Proof. rewrite !date_lt_false. lia. Qed.

End KeyOrder.

(* ================================================================== *)
(** * Grouping *)
(* ================================================================== *)

Section Grouping.

Implicit Types (recs : list (str * entry)) (d : dict) (t k : str) (l : list str).

Lemma mem_In t l : mem t l = true <-> In t l.
Proof.
  unfold mem. rewrite existsb_exists. split.
  - intros (x & Hx & E). apply str_eqb_eq in E. now subst.
  - intros H. exists t. split; [assumption | apply str_eqb_refl].
Qed.

Lemma mem_false t l : mem t l = false <-> ~ In t l.
Proof.
  rewrite <- mem_In. destruct (mem t l); split; congruence.
Qed.

Lemma first_occ_In t l : In t (first_occ l) <-> In t l.
Proof.
  induction l as [|x r IH]; simpl; [tauto|].
  rewrite filter_In, IH, negb_true_iff, str_eqb_neq.
  destruct (str_eq_dec x t); tauto.
Qed.

Lemma first_occ_NoDup l : NoDup (first_occ l).
Proof.
  induction l as [|x r IH]; simpl; constructor.
  - rewrite filter_In, negb_true_iff, str_eqb_neq. tauto.
  - now apply NoDup_filter.
Qed.

Lemma first_occ_snoc l t :
  first_occ (l ++ [t]) = first_occ l ++ (if mem t l then [] else [t]).
Proof.
  induction l as [|x r IH]; [reflexivity|].
  simpl. rewrite IH, filter_app. f_equal. f_equal.
  unfold str_eqb at 2. destruct (str_eq_dec t x) as [<- | NE]; simpl.
  - destruct (mem t r); simpl; [reflexivity|]. now rewrite str_eqb_refl.
  - destruct (mem t r); simpl; [reflexivity|].
    assert (E : str_eqb x t = false) by (apply str_eqb_neq; congruence).
    now rewrite E.
Qed.

Lemma titled_snoc k recs t e :
  titled k (recs ++ [(t, e)])
  = titled k recs ++ (if str_eqb t k then [e] else []).
Proof.
  unfold titled. rewrite filter_app, map_app. simpl.
  now destruct (str_eqb t k).
Qed.

Lemma titled_absent t recs : ~ In t (map fst recs) -> titled t recs = [].
Proof.
  unfold titled. induction recs as [|[t' e'] r IH]; [reflexivity|].
  simpl. intros H. destruct (str_eqb t' t) eqn:E.
  - apply str_eqb_eq in E. tauto.
  - apply IH. tauto.
Qed.

(** Appending under [t] to a dictionary with distinct keys [l]. *)
Lemma dict_append_map (g : str -> list entry) l t e :
  NoDup l ->
  dict_append (map (fun k => (k, g k)) l) t e
  = map (fun k => (k, if str_eqb t k then g k ++ [e] else g k)) l
    ++ (if mem t l then [] else [(t, [e])]).
Proof.
  induction l as [|x r IH]; intros ND; [reflexivity|].
  inversion ND as [|? ? Hx Hr]; subst.
  cbn [dict_append map]. unfold mem. cbn [existsb]. fold (mem t r).
  destruct (str_eq_dec x t) as [-> | NE].
  - rewrite !str_eqb_refl. cbn [orb]. rewrite app_nil_r. f_equal.
    apply map_ext_in. intros k Hk.
    assert (E : str_eqb t k = false) by (apply str_eqb_neq; congruence).
    now rewrite E.
  - assert (E1 : str_eqb x t = false) by now apply str_eqb_neq.
    assert (E2 : str_eqb t x = false) by (apply str_eqb_neq; congruence).
    rewrite E1, E2. cbn [orb]. rewrite IH by assumption. reflexivity.
Qed.

(** The grouped collection in closed form: the titles in the order of their
    first record, each with its entries in the order of the records. *)
Lemma group_from_spec recs :
  group_from [] recs
  = map (fun t => (t, titled t recs)) (first_occ (map fst recs)).
Proof.
  induction recs as [|[t e] recs IH] using rev_ind; [reflexivity|].
  unfold group_from in *. rewrite fold_left_app. simpl. rewrite IH.
  rewrite dict_append_map by apply first_occ_NoDup.
  rewrite map_app. simpl. rewrite first_occ_snoc, map_app.
  f_equal.
  - apply map_ext. intros k. rewrite titled_snoc.
    destruct (str_eqb t k); [reflexivity | now rewrite app_nil_r].
  - destruct (mem t (first_occ (map fst recs))) eqn:M.
    + apply (proj1 (mem_In _ _)) in M. apply (proj1 (first_occ_In _ _)) in M.
      apply (proj2 (mem_In _ _)) in M. now rewrite M.
    + apply (proj1 (mem_false _ _)) in M. rewrite first_occ_In in M.
      pose proof (proj2 (mem_false _ _) M) as M'.
      rewrite M'. simpl. rewrite titled_snoc, str_eqb_refl.
      now rewrite (titled_absent _ _ M).
Qed.

Lemma titled_In t recs e : In e (titled t recs) <-> In (t, e) recs.
Proof.
  unfold titled. rewrite in_map_iff. split.
  - intros ([t' e'] & <- & H). apply filter_In in H as [H E].
    apply str_eqb_eq in E. simpl in *. now subst.
  - intros H. exists (t, e). split; [reflexivity|].
    apply filter_In. split; [assumption | apply str_eqb_refl].
Qed.

Lemma sort_items_keys d : map fst (sort_items d) = map fst d.
Proof. unfold sort_items. rewrite map_map. reflexivity. Qed.

End Grouping.

(* ================================================================== *)
(** * The parser in closed form *)
(* ================================================================== *)

(** The parser returns exactly when the scan lists its records; the result
    has the titles in the order of their first record, and under each title
    its entries in the order of the records, sorted by page. *)
Lemma parse_spec (text : str) (m : dict) :
  parse_kindle_annotations text = Ret m <->
  exists recs,
    records (length (lines_of text)) (lines_of text) 0 = Ret recs
    /\ m = map (fun t => (t, sort_by key_lt page_key (titled t (map snd recs))))
               (first_occ (map fst (map snd recs))).
Proof.
  unfold parse_kindle_annotations. fold (lines_of text).
  rewrite scan_loop_records.
  destruct (records (length (lines_of text)) (lines_of text) 0) as [recs| |];
    simpl.
  - rewrite group_from_spec. unfold sort_items. rewrite map_map. simpl.
    split.
    + intros H. injection H as <-. now exists recs.
    + intros (recs' & H & ->). injection H as <-. reflexivity.
  - split; [discriminate | intros (? & ? & _); discriminate].
  - split; [discriminate | intros (? & ? & _); discriminate].
Qed.

(* ================================================================== *)
(** * Body extraction and the discarding of empty bodies *)
(* ================================================================== *)



(** Every listed record has a text, and so kept at least one line. *)
Lemma records_have_text fuel lines i recs k t e :
  records fuel lines i = Ret recs -> In (k, (t, e)) recs ->
  text e <> []
  /\ t = normalize_title (nth k lines [])
  /\ t <> []
  /\ kept_lines t (body_run lines (k + 3)) <> [].
Proof.
  intros H Hin. pose proof (records_inv _ _ _ H) as Hall.
  rewrite Forall_forall in Hall.
  destruct (Hall _ Hin) as (_ & _ & i' & Hr). simpl in Hr.
  destruct (read_record_inv _ _ Hr) as [_ Hinv].
  destruct (Hinv t e eq_refl) as (E1 & E2 & _ & E3 & E4 & _).
  repeat split; try assumption.
  intros Hk. rewrite Hk in E4. simpl in E4. congruence.
Qed.

Lemma kept_lines_all_noise (title : str) (run : list str) :
  Forall (fun l => is_noise title (strip l) = true) run ->
  kept_lines title run = [].
Proof.
  unfold kept_lines. induction run as [|l r IH]; [reflexivity|].
  intros H. inversion H as [|? ? Hl Hr]; subst. simpl. rewrite Hl. simpl.
  now apply IH.
Qed.

(** C6.  Every entry of the result has a non-empty text.  A record whose
    body keeps no line, for instance because every line of its run is a
    noise line, is passed without an entry and without an exception, leaves
    [grouped] as it was, and is not among the records of the result. *)
Theorem entries_have_text (export : str) (m : dict) :
  parse_kindle_annotations export = Ret m ->
  (forall title items e, In (title, items) m -> In e items -> text e <> [])
  /\ (forall (lines : list str) (i : nat) (ts : option str),
        let title := normalize_title (nth i lines []) in
        let meta := strip (nth (i + 1) lines []) in
        let run := body_run lines (i + 3) in
        title <> [] ->
        startswith meta META_PREFIX = true ->
        meta_timestamp meta = Ret ts ->
        (strip (join [NEWLINE] (kept_lines title run)) = []
         \/ Forall (fun l => is_noise title (strip l) = true) run) ->
        read_record lines i = Ret ((i + 3 + length run + 1)%nat, None)
        /\ forall grouped, add_record grouped None = grouped)
  /\ exists recs,
       records (length (lines_of export)) (lines_of export) 0 = Ret recs
       /\ forall i, kept_lines (normalize_title (nth i (lines_of export) []))
                               (body_run (lines_of export) (i + 3)) = []
                    -> ~ In i (map fst recs).
Proof.
  intros H. apply parse_spec in H as (recs & Hrecs & ->).
  split; [|split].
  - intros title items e Hin He.
    apply in_map_iff in Hin as (t & Ht & _). injection Ht as <- <-.
    apply (Permutation_in _ (Permutation_sym (sort_by_perm key_lt page_key _)))
      in He.
    apply titled_In, in_map_iff in He as ([k te] & Hte & Hk).
    simpl in Hte. subst te.
    now destruct (records_have_text _ _ _ _ _ _ Hrecs Hk).
  - intros lines i ts title meta run Ht Hm Hts Hbody.
    split; [|reflexivity].
    assert (Hk : kept_lines title run = []).
    { destruct Hbody as [Hs | Hn].
      - destruct (annotation_text_spec title (body_run_nonblank lines (i + 3)))
          as [E1 E2].
        fold run in E1, E2. apply E2. congruence.
      - now apply kept_lines_all_noise. }
    subst title meta run.
    pose proof (read_record_spec lines i Ht Hm Hts) as R. cbv zeta in R.
    rewrite Hk in R. exact R.
  - exists recs. split; [assumption|].
    intros i Hk Hin. apply in_map_iff in Hin as ([k [t e]] & Hi & Hin).
    simpl in Hi. subst k.
    destruct (records_have_text _ _ _ _ _ _ Hrecs Hin) as (_ & -> & _ & Hne).
    contradiction.
Qed.

Lemma entries_have_text_witness :
  parse_kindle_annotations empty_body_export
    = Ret [ (lit "Walden",
             [ Entry (lit "Simplify.") (Some (lit "3")) None ]) ]
  /\ forall title items e,
       In (title, items)
          [ (lit "Walden", [ Entry (lit "Simplify.") (Some (lit "3")) None ]) ]
       -> In e items -> text e <> [].
Proof.
  assert (H : parse_kindle_annotations empty_body_export
              = Ret [ (lit "Walden",
                       [ Entry (lit "Simplify.") (Some (lit "3")) None ]) ])
    by (vm_compute; reflexivity).
  split; [exact H|].
  exact (proj1 (@entries_have_text empty_body_export _ H)).
Defined.

(* ================================================================== *)
(** * The page key *)
(* ================================================================== *)

Section PageKey.

Lemma decimal_in_None (zs : list N) (c : char) :
  forallb (fun z => (c <? z) || (z + 9 <? c))%N zs = true ->
  decimal_in zs c = None.
Proof.
  induction zs as [|z r IH]; simpl; [reflexivity|].
  intros H. apply andb_true_iff in H as [H1 H2].
  unfold in_range. apply orb_true_iff in H1.
  destruct (N.leb_spec z c), (N.leb_spec c (z + 9)); simpl;
    try (now apply IH).
  destruct H1 as [H1 | H1]; apply N.ltb_lt in H1; lia.
Qed.

(** No decimal character lies in a range that misses every run of the table. *)
Lemma no_decimal_between (lo hi : N) :
  forallb (fun z => (hi <? z) || (z + 9 <? lo))%N decimal_zeros = true ->
  forall c, (lo <= c <= hi)%N -> decimal_value c = None.
Proof.
  intros H c Hc. apply decimal_in_None.
  rewrite forallb_forall in *. intros z Hz. specialize (H z Hz).
  apply orb_true_iff in H. apply orb_true_iff.
  destruct H as [H | H]; apply N.ltb_lt in H; [left | right];
    apply N.ltb_lt; lia.
Qed.

Lemma in_range_spec (lo hi c : N) :
  in_range lo hi c = true <-> (lo <= c <= hi)%N.
Proof.
  unfold in_range. rewrite andb_true_iff, !N.leb_le. tauto.
Qed.

Lemma space_not_decimal (c : char) : is_space c = true -> decimal_value c = None.
Proof.
  unfold is_space. rewrite !orb_true_iff, !in_range_spec, !N.eqb_eq.
  intros H.
  repeat match goal with H : _ \/ _ |- _ => destruct H as [H | H] end;
    try subst c; try reflexivity.
  - apply (@no_decimal_between 9 13); [reflexivity | assumption].
  - apply (@no_decimal_between 28 32); [reflexivity | assumption].
  - apply (@no_decimal_between 8192 8202); [reflexivity | assumption].
Qed.

Lemma decimal_not_space (c : char) : is_decimal c = true -> is_space c = false.
Proof.
  unfold is_decimal. intros H. destruct (is_space c) eqn:E; [|reflexivity].
  rewrite (space_not_decimal _ E) in H. discriminate.
Qed.

Lemma decimal_not_small (c : char) : is_decimal c = true -> (48 <= c)%N.
Proof.
  unfold is_decimal. intros H.
  destruct (N.le_gt_cases 48 c) as [L | G]; [assumption|].
  rewrite (@no_decimal_between 0 47 eq_refl c) in H by lia. discriminate.
Qed.

Lemma decimal_not_underscore (c : char) : is_decimal c = true -> c <> 95%N.
Proof. intros H ->. discriminate. Qed.

Lemma digits_value_decimal (ds : str) :
  forall acc b,
    ds <> [] -> forallb is_decimal ds = true ->
    digits_value acc b ds
    = Some (fold_left (fun a c => (a * 10 + match decimal_value c with
                                            | Some d => d
                                            | None => 0
                                            end)%N) ds acc).
Proof.
  induction ds as [|c r IH]; intros acc b Hne Hd; [congruence|].
  simpl in Hd. apply andb_true_iff in Hd as [Hc Hr]. simpl.
  unfold is_decimal in Hc. destruct (decimal_value c) as [d|]; [|discriminate].
  destruct r as [|c' r']; [reflexivity|].
  now apply IH.
Qed.

Lemma decimal_not_int_space (c : char) :
  is_decimal c = true -> is_int_space c = false.
Proof.
  intros H. unfold is_int_space. now rewrite (decimal_not_space _ H).
Qed.

(** [int] drops nothing from a string of decimal characters. *)
Lemma decimal_trimmed (ds : str) :
  forallb is_decimal ds = true ->
  rstrip_by is_int_space (lstrip_by is_int_space ds) = ds.
Proof.
  intros H.
  assert (H1 : lstrip_by is_int_space ds = ds).
  { destruct ds as [|c r]; [reflexivity|]. simpl in H.
    apply andb_true_iff in H as [Hc _]. apply lstrip_by_head.
    now apply decimal_not_int_space. }
  assert (H2 : lstrip_by is_int_space (rev ds) = rev ds).
  { destruct (rev ds) as [|c r] eqn:E; [reflexivity|].
    apply lstrip_by_head. apply decimal_not_int_space.
    rewrite forallb_forall in H. apply H. apply in_rev. rewrite E. now left. }
  rewrite H1. unfold rstrip_by. rewrite H2. apply rev_involutive.
Qed.

(** [int] of a non-empty string of decimal characters is its number. *)
Lemma int_decimal (ds : str) :
  ds <> [] -> forallb is_decimal ds = true ->
  int ds = Some (Z.of_N (decimal_number ds)).
Proof.
  intros Hne Hd. unfold int. rewrite (decimal_trimmed _ Hd).
  destruct ds as [|c r]; [congruence|].
  assert (Hc : is_decimal c = true)
    by (simpl in Hd; now apply andb_true_iff in Hd as [Hc _]).
  pose proof (decimal_not_small _ Hc) as Hs.
  destruct (N.eqb_spec c 45); [lia|]. destruct (N.eqb_spec c 43); [lia|].
  rewrite (digits_value_decimal 0%N false Hne Hd). reflexivity.
Qed.

(** The first component of a split. *)
Lemma split_from_first (sep : char) (a : str) :
  forall cur rest,
    forallb (fun c => negb (c =? sep)%N) a = true ->
    rest = [] \/ (exists r, rest = sep :: r) ->
    hd [] (split_from sep None cur (a ++ rest)) = cur ++ a.
Proof.
  induction a as [|c r IH]; intros cur rest Ha Hrest; simpl.
  - rewrite app_nil_r. destruct Hrest as [-> | (r' & ->)]; simpl.
    + reflexivity.
    + now rewrite N.eqb_refl.
  - simpl in Ha. apply andb_true_iff in Ha as [Hc Hr].
    apply negb_true_iff in Hc. rewrite Hc. rewrite IH by assumption.
    now rewrite <- app_assoc.
Qed.

Lemma page_sort_key_number (ds rest : str) :
  ds <> [] -> forallb is_decimal ds = true ->
  rest = [] \/ (exists r, rest = DASH :: r) ->
  page_sort_key (Some (ds ++ rest)) = Finite (Z.of_N (decimal_number ds)).
Proof.
  intros Hne Hd Hrest. unfold page_sort_key.
  destruct (ds ++ rest) as [|c0 r0] eqn:E.
  - destruct ds; [congruence | discriminate].
  - rewrite <- E. unfold split. rewrite split_from_first; try assumption.
    + simpl. now rewrite int_decimal.
    + rewrite forallb_forall in *. intros c Hc. apply negb_true_iff.
      apply N.eqb_neq. intros ->.
      pose proof (decimal_not_small _ (Hd _ Hc)). unfold DASH in *. lia.
Qed.

Lemma page_sort_key_dash (r : str) : page_sort_key (Some (DASH :: r)) = Infinity.
Proof. reflexivity. Qed.

End PageKey.

(* ================================================================== *)
(** * The order of the entries *)
(* ================================================================== *)

Lemma key_eqb_eq (a b : sort_key) : key_eqb a b = true <-> a = b.
Proof.
  destruct a, b; simpl; try (split; congruence).
  rewrite Z.eqb_eq. split; congruence.
Qed.

Lemma key_lt_irrefl (a : sort_key) : key_lt a a = false.
Proof. destruct a; simpl; [apply Z.ltb_irrefl | reflexivity]. Qed.

Lemma sorted_by_key_le (l : list entry) :
  StronglySorted (le_by key_lt page_key) l ->
  StronglySorted (fun a b => key_le (page_key a) (page_key b) = true) l.
Proof.
  induction 1 as [|x r Hr IH Hx]; constructor; [assumption|].
  eapply Forall_impl; [|exact Hx]. unfold le_by, key_le. simpl.
  intros y ->. reflexivity.
Qed.




(* ================================================================== *)
(** * The keys of the result *)
(* ================================================================== *)

Section Titles.

Lemma lstrip_bom_repeat (n : nat) (s : str) :
  lstrip_chars [BOM] (repeat BOM n ++ s) = lstrip_chars [BOM] s.
Proof.
  unfold lstrip_chars. apply lstrip_by_all.
  apply forallb_forall. intros c Hc. apply repeat_spec in Hc. now subst.
Qed.

Lemma space_not_bom (c : char) : is_space c = true -> c <> BOM.
Proof. intros H ->. discriminate. Qed.

(** Blanks at the end of a line do not stop the removal of the marks. *)
Lemma lstrip_bom_trailing (s w : str) :
  forallb is_space w = true ->
  lstrip_chars [BOM] (s ++ w) = lstrip_chars [BOM] s ++ w.
Proof.
  intros Hw. unfold lstrip_chars. induction s as [|c r IH]; simpl.
  - destruct w as [|c w']; [reflexivity|]. simpl in Hw.
    apply andb_true_iff in Hw as [Hc _]. simpl.
    destruct (N.eqb_spec c BOM) as [-> | NE]; [discriminate | reflexivity].
  - destruct (c =? BOM)%N; [exact IH | reflexivity].
Qed.

Lemma normalize_title_bom (n : nat) (s : str) :
  normalize_title (repeat BOM n ++ s) = normalize_title s.
Proof. unfold normalize_title. now rewrite lstrip_bom_repeat. Qed.

Lemma normalize_title_trailing (s w : str) :
  forallb is_space w = true -> normalize_title (s ++ w) = normalize_title s.
Proof.
  intros Hw. unfold normalize_title. rewrite lstrip_bom_trailing by assumption.
  apply (@strip_spaces [] _ w); [reflexivity | assumption].
Qed.

Lemma normalize_title_leading (w s : str) :
  forallb is_space w = true -> ~ starts_with_bom s ->
  normalize_title (w ++ s) = normalize_title s.
Proof.
  intros Hw Hs. unfold normalize_title, lstrip_chars.
  assert (E : lstrip_by (fun c => existsb (N.eqb c) [BOM]) s = s).
  { destruct s as [|c r]; [reflexivity|]. simpl.
    destruct (N.eqb_spec c BOM) as [-> | NE]; [|reflexivity].
    exfalso. apply Hs. now exists r. }
  destruct w as [|c w']; [reflexivity|]. rewrite E.
  simpl in Hw. apply andb_true_iff in Hw as [Hc Hw]. simpl.
  destruct (N.eqb_spec c BOM) as [-> | NE]; [discriminate|]. simpl.
  replace (c :: w' ++ s) with ((c :: w') ++ s ++ []) by
    (now rewrite app_nil_r).
  rewrite strip_spaces; [reflexivity | | reflexivity].
  simpl. now rewrite Hc, Hw.
Qed.

End Titles.

(** C10, as amended.  The keys of the result are the titles of the records
    in the order of their first record, none of them empty; a record whose
    title line is line [i] lies under the key [normalize_title] makes of
    that line, so two records whose title lines have the same
    [normalize_title] lie under one key.  [normalize_title] gives the same
    key for lines that differ in the number of leading U+FEFF characters, in
    whitespace at the end, or in whitespace in front of a line that does not
    start with U+FEFF. *)
Theorem records_keyed_by_title (export : str) (m : dict) :
  parse_kindle_annotations export = Ret m ->
  exists recs,
    records (length (lines_of export)) (lines_of export) 0 = Ret recs
    /\ map fst m = first_occ (map (fun r => fst (snd r)) recs)
    /\ Forall (fun key => key <> []) (map fst m)
    /\ NoDup (map fst m)
    /\ (forall i title e,
          In (i, (title, e)) recs ->
          title = normalize_title (nth i (lines_of export) [])
          /\ exists items, In (title, items) m /\ In e items)
    /\ (forall i1 t1 e1 i2 t2 e2,
          In (i1, (t1, e1)) recs -> In (i2, (t2, e2)) recs ->
          normalize_title (nth i1 (lines_of export) [])
          = normalize_title (nth i2 (lines_of export) []) ->
          t1 = t2
          /\ exists items, In (t1, items) m /\ In e1 items /\ In e2 items)
    /\ (forall n s, normalize_title (repeat BOM n ++ s) = normalize_title s)
    /\ (forall s w, forallb is_space w = true ->
                    normalize_title (s ++ w) = normalize_title s)
    /\ (forall w s, forallb is_space w = true -> ~ starts_with_bom s ->
                    normalize_title (w ++ s) = normalize_title s).
Proof.
  intros H. apply parse_spec in H as (recs & Hrecs & ->).
  exists recs. split; [assumption|].
  assert (Hkeys : map fst
                    (map (fun t => (t, sort_by key_lt page_key
                                         (titled t (map snd recs))))
                         (first_occ (map fst (map snd recs))))
                  = first_occ (map (fun r => fst (snd r)) recs)).
  { rewrite map_map. simpl. rewrite map_id. now rewrite map_map. }
  assert (Hunder : forall i title e,
             In (i, (title, e)) recs ->
             In (title, sort_by key_lt page_key (titled title (map snd recs)))
                (map (fun t => (t, sort_by key_lt page_key
                                     (titled t (map snd recs))))
                     (first_occ (map fst (map snd recs))))
             /\ In e (sort_by key_lt page_key (titled title (map snd recs)))).
  { intros i title e Hin. split.
    - apply in_map_iff. exists title. split; [reflexivity|].
      apply first_occ_In. apply in_map_iff. exists (title, e).
      split; [reflexivity|]. apply in_map_iff. now exists (i, (title, e)).
    - apply (Permutation_in _ (sort_by_perm key_lt page_key _)).
      apply titled_In. apply in_map_iff. now exists (i, (title, e)). }
  rewrite Hkeys.
  split; [reflexivity|]. split; [|split; [apply first_occ_NoDup|]].
  { apply Forall_forall. intros key Hk. apply (proj1 (first_occ_In _ _)) in Hk.
    apply in_map_iff in Hk as ([i [t e]] & <- & Hin). simpl.
    now destruct (records_have_text _ _ _ _ _ _ Hrecs Hin) as (_ & _ & Hne & _). }
  split.
  { intros i title e Hin. split.
    - now destruct (records_have_text _ _ _ _ _ _ Hrecs Hin) as (_ & Ht & _).
    - destruct (Hunder _ _ _ Hin) as [H1 H2].
      exists (sort_by key_lt page_key (titled title (map snd recs))).
      split; assumption. }
  split.
  { intros i1 t1 e1 i2 t2 e2 Hin1 Hin2 Heq.
    destruct (records_have_text _ _ _ _ _ _ Hrecs Hin1) as (_ & Ht1 & _).
    destruct (records_have_text _ _ _ _ _ _ Hrecs Hin2) as (_ & Ht2 & _).
    assert (E : t1 = t2) by congruence. split; [exact E|].
    clear Ht1 Ht2 Heq. subst t2.
    destruct (Hunder _ _ _ Hin1) as [H1 H2].
    destruct (Hunder _ _ _ Hin2) as [_ H3].
    exists (sort_by key_lt page_key (titled t1 (map snd recs))).
    split; [exact H1 | split; assumption]. }
  split; [apply normalize_title_bom|].
  split; [apply normalize_title_trailing | apply normalize_title_leading].
Qed.

Lemma records_keyed_by_title_witness :
  parse_kindle_annotations bom_export
    = Ret [ (lit "Walden",
             [ Entry (lit "Simplify.") (Some (lit "3")) None;
               Entry (lit "Simplify, simplify.") (Some (lit "4")) None ]);
            (lit "Deep Work",
             [ Entry (lit "Focus is the new IQ.") (Some (lit "42")) None ]) ]
  /\ exists recs,
       records (length (lines_of bom_export)) (lines_of bom_export) 0 = Ret recs
       /\ map (fun r => fst (snd r)) recs
          = [lit "Walden"; lit "Deep Work"; lit "Walden"].
Proof.
  assert (H : parse_kindle_annotations bom_export
    = Ret [ (lit "Walden",
             [ Entry (lit "Simplify.") (Some (lit "3")) None;
               Entry (lit "Simplify, simplify.") (Some (lit "4")) None ]);
            (lit "Deep Work",
             [ Entry (lit "Focus is the new IQ.") (Some (lit "42")) None ]) ])
    by (vm_compute; reflexivity).
  split; [exact H|].
  destruct (@records_keyed_by_title bom_export _ H) as (recs & Hr & _).
  exists recs. split; [exact Hr|].
  vm_compute in Hr. injection Hr as <-. vm_compute. reflexivity.
Defined.

(** C10, the claim as it was stated, at an input where it fails.  The title
    lines of the two records differ by one leading space only, and the
    records land under the two keys ["Walden"] and [U+FEFF "Walden"]. *)
Lemma leading_space_before_bom_splits_key :
  nth 5 (lines_of bom_space_export) []
    = SPACE :: nth 0 (lines_of bom_space_export) []
  /\ strip (nth 5 (lines_of bom_space_export) [])
     = strip (nth 0 (lines_of bom_space_export) [])
  /\ parse_kindle_annotations bom_space_export
     = Ret [ (lit "Walden",
              [ Entry (lit "Simplify.") (Some (lit "3")) None ]);
             (BOM :: lit "Walden",
              [ Entry (lit "Simplify, simplify.") (Some (lit "4")) None ]) ]
  /\ normalize_title (nth 5 (lines_of bom_space_export) [])
     <> normalize_title (nth 0 (lines_of bom_space_export) []).
Proof.
  repeat split; try (vm_compute; reflexivity).
  vm_compute. discriminate.
Qed.

(* ================================================================== *)
(** * Raw file selection *)
(* ================================================================== *)

Section Selection.

Implicit Types (dir : directory) (p : dirent) (l : list (date * str)).

Lemma strptime_Ymd_cases (s : str) :
  (exists d, strptime_Ymd s = Ret d) \/ strptime_Ymd s = Raise ValueError.
Proof.
  unfold strptime_Ymd.
  destruct s as [|y1 [|y2 [|y3 [|y4 [|m1 [|m2 [|d1 [|d2 [|? ?]]]]]]]]];
    try (now right).
  destruct (decimal_value y1), (decimal_value y2), (decimal_value y3),
    (decimal_value y4), (decimal_value d2); try (now right).
  match goal with |- context [if ?c then _ else _] => destruct c end;
    [|now right].
  match goal with |- context [if ?c then _ else _] => destruct c end;
    [left; eexists; reflexivity | now right].
Qed.

Lemma extract_date_cases (n : str) :
  (exists d, extract_date_from_filename n = Ret d)
  \/ extract_date_from_filename n = Raise ValueError.
Proof.
  unfold extract_date_from_filename.
  destruct (filename_date n); [apply strptime_Ymd_cases | now right].
Qed.

Lemma collect_dated_spec (entries : list dirent) :
  forall acc, collect_dated entries acc = Ret (acc ++ dated_list entries).
Proof.
  induction entries as [|p r IH]; intros acc; simpl.
  - now rewrite app_nil_r.
  - unfold dated. destruct (is_file p); simpl; [|apply IH].
    destruct (extract_date_cases (name p)) as [(d & ->) | ->].
    + rewrite IH. now rewrite <- app_assoc.
    + apply IH.
Qed.

Lemma in_dated_list (d : date) (n : str) dir :
  In (d, n) (dated_list dir)
  <-> exists p, In p dir /\ dated p = Some d /\ name p = n.
Proof.
  unfold dated_list. rewrite in_flat_map. split.
  - intros (p & Hp & Hin). exists p. split; [assumption|].
    destruct (dated p) as [d'|]; [|destruct Hin].
    destruct Hin as [E | []]. injection E as <- <-. now split.
  - intros (p & Hp & Hd & Hn). exists p. split; [assumption|].
    rewrite Hd, Hn. now left.
Qed.

Lemma dated_list_nil dir :
  dated_list dir = [] <-> forall p, In p dir -> dated p = None.
Proof.
  split.
  - intros H p Hp. destruct (dated p) as [d|] eqn:E; [|reflexivity].
    assert (Hin : In (d, name p) (dated_list dir))
      by (apply in_dated_list; now exists p).
    rewrite H in Hin. destruct Hin.
  - intros H. destruct (dated_list dir) as [|[d n] r] eqn:E; [reflexivity|].
    assert (Hin : In (d, n) (dated_list dir)) by (rewrite E; now left).
    apply in_dated_list in Hin as (p & Hp & Hd & _).
    rewrite (H p Hp) in Hd. discriminate.
Qed.

Lemma dated_list_names dir :
  NoDup (map name dir) -> NoDup (map snd (dated_list dir)).
Proof.
  induction dir as [|p r IH]; simpl; intros ND; [constructor|].
  inversion ND as [|? ? Hp Hr]; subst.
  destruct (dated p) as [d|]; simpl; [|now apply IH].
  constructor; [|now apply IH].
  intros Hin. apply in_map_iff in Hin as ([d' n'] & Hn & Hin).
  simpl in Hn. subst n'.
  apply in_dated_list in Hin as (q & Hq & _ & Hname).
  apply Hp. rewrite <- Hname. now apply in_map.
Qed.

Lemma filter_filter (A : Type) (f g : A -> bool) (l : list A) :
  filter f (filter g l) = filter (fun x => g x && f x) l.
Proof.
  induction l as [|x r IH]; simpl; [reflexivity|].
  destruct (g x); simpl; [destruct (f x); now rewrite IH | exact IH].
Qed.

(** The second loop removes the files of the list that are older than
    [newest], and nothing else. *)
Lemma delete_older_spec (newest : date) l :
  forall dir,
    NoDup (map snd l) ->
    (forall dn, In dn l -> In (snd dn) (map name dir)) ->
    delete_older newest l dir
    = Ret (filter (fun p => negb (existsb (fun dn => date_lt (fst dn) newest
                                                    && str_eqb (snd dn) (name p))
                                          l)) dir).
Proof.
  induction l as [|[d n] r IH]; intros dir ND Hin; simpl.
  - f_equal. symmetry. apply forallb_filter_id. now apply forallb_forall.
  - inversion ND as [|? ? Hn Hr]; subst.
    destruct (date_lt d newest) eqn:E; simpl.
    + unfold unlink.
      assert (Hex : existsb (fun p => str_eqb (name p) n) dir = true).
      { apply existsb_exists.
        specialize (Hin (d, n) (or_introl eq_refl)). simpl in Hin.
        apply in_map_iff in Hin as (p & Hp & Hpin). exists p.
        split; [assumption | now apply str_eqb_eq]. }
      rewrite Hex. simpl. rewrite IH; [|assumption|].
      * f_equal. rewrite filter_filter. apply filter_ext. intros p.
        unfold str_eqb at 1 3.
        destruct (str_eq_dec (name p) n), (str_eq_dec n (name p));
          simpl; congruence.
      * intros [d' n'] Hdn. simpl.
        specialize (Hin (d', n') (or_intror Hdn)). simpl in Hin.
        apply in_map_iff in Hin as (p & Hp & Hpin).
        apply in_map_iff. exists p. split; [assumption|].
        apply filter_In. split; [assumption|].
        apply negb_true_iff, str_eqb_neq. intros Hnp.
        apply Hn. apply in_map_iff. exists (d', n'). split; [|assumption].
        simpl. congruence.
    + rewrite IH; [reflexivity | assumption|].
      intros dn Hdn. apply Hin. now right.
Qed.

Lemma date_lt_irrefl (d : date) : date_lt d d = false.
Proof. apply date_lt_false. lia. Qed.

End Selection.

Lemma NoDup_name_inj (dir : directory) (p q : dirent) :
  NoDup (map name dir) -> In p dir -> In q dir -> name p = name q -> p = q.
Proof.
  induction dir as [|x r IH]; simpl; intros ND Hp Hq E; [destruct Hp|].
  inversion ND as [|? ? Hx Hr]; subst.
  destruct Hp as [-> | Hp], Hq as [-> | Hq].
  - reflexivity.
  - exfalso. apply Hx. rewrite E. now apply in_map.
  - exfalso. apply Hx. rewrite <- E. now apply in_map.
  - now apply IH.
Qed.

(** C7.  On a directory (distinct names) without a raw annotation file the
    function raises [FileNotFoundError].  Otherwise it returns the name of a
    raw annotation file of the directory whose date no other one exceeds;
    with [delete_old] the directory is left with exactly its entries that
    are not raw annotation files of a strictly older date, and without
    [delete_old] it is left as it was. *)
Theorem select_newest_and_delete_older (delete_old : bool) (raw_dir : directory) :
  NoDup (map name raw_dir) ->
  ((forall p, In p raw_dir -> dated p = None) ->
   select_and_cleanup_raw_files delete_old raw_dir = Raise FileNotFoundError)
  /\ ((exists p, In p raw_dir /\ dated p <> None) ->
      exists newest d_max,
        select_and_cleanup_raw_files delete_old raw_dir
        = Ret (name newest,
               if delete_old
               then filter (fun p => negb (is_older d_max p)) raw_dir
               else raw_dir)
        /\ In newest raw_dir
        /\ dated newest = Some d_max
        /\ (forall p d, In p raw_dir -> dated p = Some d ->
                        date_lt d_max d = false)).
Proof.
  intros ND. unfold select_and_cleanup_raw_files.
  rewrite collect_dated_spec. simpl. split.
  - intros H. apply dated_list_nil in H. now rewrite H.
  - intros (p0 & Hp0 & Hd0).
    destruct (dated_list raw_dir) as [|first rest] eqn:E.
    { exfalso. apply Hd0. now apply (proj1 (dated_list_nil raw_dir) E). }
    rewrite <- E.
    set (sorted := sort_by date_lt fst (dated_list raw_dir)).
    assert (Hperm : Permutation (dated_list raw_dir) sorted)
      by apply sort_by_perm.
    assert (Hne : sorted <> []).
    { intros H. apply sort_by_nil in H. congruence. }
    assert (Hsorted : StronglySorted (le_by date_lt fst) sorted)
      by (apply sort_by_sorted; [apply date_lt_asym | apply date_le_trans]).
    destruct (last sorted first) as [d_max n_max] eqn:L.
    assert (Hlast : In (d_max, n_max) (dated_list raw_dir)).
    { apply (Permutation_in _ (Permutation_sym Hperm)). rewrite <- L.
      now apply last_in. }
    apply in_dated_list in Hlast as (newest & Hnew & Hdnew & Hname).
    exists newest, d_max.
    assert (Hmax : forall p d, In p raw_dir -> dated p = Some d ->
                               date_lt d_max d = false).
    { intros p d Hp Hd.
      assert (Hin : In (d, name p) sorted).
      { apply (Permutation_in _ Hperm). apply in_dated_list. now exists p. }
      destruct (sorted_last first Hsorted _ Hin) as [Heq | Hle].
      - rewrite L in Heq. injection Heq as -> _. apply date_lt_irrefl.
      - rewrite L in Hle. exact Hle. }
    repeat split; try assumption.
    destruct delete_old; [|now rewrite Hname].
    rewrite delete_older_spec.
    + simpl. rewrite Hname. do 2 f_equal.
      apply filter_ext_in. intros p Hp. f_equal.
      unfold is_older.
      destruct (existsb _ sorted) eqn:Ex.
      * apply existsb_exists in Ex as ([d n] & Hin & Hc). simpl in Hc.
        apply andb_true_iff in Hc as [Hlt Hn]. apply str_eqb_eq in Hn.
        apply (Permutation_in _ (Permutation_sym Hperm)) in Hin.
        apply in_dated_list in Hin as (q & Hq & Hdq & Hnq).
        assert (q = p) by (apply (@NoDup_name_inj raw_dir q p ND Hq Hp); congruence).
        subst q. now rewrite Hdq.
      * destruct (dated p) as [d|] eqn:Hd; [|reflexivity].
        destruct (date_lt d d_max) eqn:Hlt; [|reflexivity].
        assert (Hin : In (d, name p) sorted).
        { apply (Permutation_in _ Hperm). apply in_dated_list. now exists p. }
        assert (Ht : existsb (fun dn => date_lt (fst dn) d_max
                                        && str_eqb (snd dn) (name p)) sorted
                     = true).
        { apply existsb_exists. exists (d, name p). split; [assumption|].
          simpl. now rewrite Hlt, str_eqb_refl. }
        congruence.
    + apply (Permutation_NoDup (Permutation_map snd Hperm)).
      now apply dated_list_names.
    + intros [d n] Hin. simpl.
      apply (Permutation_in _ (Permutation_sym Hperm)) in Hin.
      apply in_dated_list in Hin as (q & Hq & _ & <-). now apply in_map.
Qed.

Lemma select_newest_and_delete_older_witness :
  (exists newest d_max,
     select_and_cleanup_raw_files true sample_dir
     = Ret (name newest, filter (fun p => negb (is_older d_max p)) sample_dir)
     /\ In newest sample_dir
     /\ dated newest = Some d_max
     /\ (forall p d, In p sample_dir -> dated p = Some d ->
                     date_lt d_max d = false))
  /\ select_and_cleanup_raw_files true sample_dir
     = Ret (lit "20250315_kindle_annotations_raw.txt" ++ [NEWLINE],
            [ Dirent (lit "notes.txt") true;
              Dirent (lit "20250315_kindle_annotations_raw.txt") true;
              Dirent (lit "20251301_kindle_annotations_raw.txt") true;
              Dirent (lit "20260101_kindle_annotations_raw.txt") false;
              Dirent (lit "20250315_kindle_annotations_raw.txt" ++ [NEWLINE])
                     true ])
  /\ select_and_cleanup_raw_files true
       [ Dirent (lit "notes.txt") true;
         Dirent (lit "20251301_kindle_annotations_raw.txt") true ]
     = Raise FileNotFoundError.
Proof.
  split; [|split].
  - apply (@select_newest_and_delete_older true sample_dir).
    + repeat constructor; simpl; intuition discriminate.
    + exists (Dirent (lit "20250101_kindle_annotations_raw.txt") true).
      split; [now left | vm_compute; discriminate].
  - vm_compute. reflexivity.
  - apply (@select_newest_and_delete_older true
             [ Dirent (lit "notes.txt") true;
               Dirent (lit "20251301_kindle_annotations_raw.txt") true ]).
    + repeat constructor; simpl; intuition discriminate.
    + intros p [<- | [<- | []]]; vm_compute; reflexivity.
Defined.

(* ================================================================== *)
(** * Batches of blocks *)
(* ================================================================== *)

Section Batches.

Variable A : Type.
Implicit Types (l : list A).

Lemma firstn_plus (a b : nat) l :
  firstn (a + b) l = firstn a l ++ firstn b (skipn a l).
Proof.
  revert l. induction a as [|a IH]; intros l; [reflexivity|].
  destruct l as [|x r]; simpl.
  - now rewrite firstn_nil.
  - now rewrite IH.
Qed.

Lemma range_hundreds (n : nat) :
  range 0 n 100 = map (fun k => k * 100)%nat (seq 0 ((n + 99) / 100)).
Proof.
  unfold range. replace (n - 0 + 100 - 1)%nat with (n + 99)%nat by lia.
  reflexivity.
Qed.

Lemma concat_hundreds (c : nat) l :
  concat (map (fun i => slice l i (i + 100))
              (map (fun k => k * 100)%nat (seq 0 c)))
  = firstn (c * 100) l.
Proof.
  induction c as [|c IH]; [reflexivity|].
  replace (S c * 100)%nat with (c * 100 + 100)%nat by lia.
  rewrite seq_S, !map_app, concat_app, IH. cbn [map concat Nat.add].
  rewrite app_nil_r. unfold slice.
  replace (c * 100 + 100 - c * 100)%nat with 100%nat by lia.
  now rewrite firstn_plus.
Qed.

Lemma hundreds_bounds (n : nat) :
  let c := ((n + 99) / 100)%nat in
  (n <= c * 100)%nat /\ (c * 100 < n + 100)%nat.
Proof.
  intros c. subst c.
  pose proof (Nat.div_mod_eq (n + 99) 100) as H.
  pose proof (Nat.mod_upper_bound (n + 99) 100 ltac:(lia)) as Hm.
  lia.
Qed.

(** The batches are consecutive pieces of the list and make it up. *)
Lemma batches_of_concat l : concat (batches_of l) = l.
Proof.
  unfold batches_of. rewrite range_hundreds, concat_hundreds.
  apply firstn_all2. apply hundreds_bounds.
Qed.

Lemma batches_of_nth l (k : nat) :
  (k < length (batches_of l))%nat ->
  nth k (batches_of l) [] = firstn 100 (skipn (k * 100) l)
  /\ (k * 100 < length l)%nat.
Proof.
  unfold batches_of. rewrite range_hundreds, !length_map, length_seq.
  intros Hk. split.
  - rewrite map_map.
    rewrite (@nth_indep _ _ k [] (slice l (0 * 100) (0 * 100 + 100)))
      by now rewrite length_map, length_seq.
    rewrite (map_nth (fun x => slice l (x * 100) (x * 100 + 100)) (seq 0 _) 0%nat k).
    rewrite seq_nth by assumption. simpl. unfold slice.
    now replace (k * 100 + 100 - k * 100)%nat with 100%nat by lia.
  - pose proof (hundreds_bounds (length l)) as H. cbv zeta in H.
    destruct H as [_ H].
    remember ((length l + 99) / 100)%nat as c. clear Heqc. lia.
Qed.

(** No batch is empty, none has more than 100 blocks, and every batch but
    the last one has exactly 100. *)
Lemma batches_of_sizes l (k : nat) :
  (k < length (batches_of l))%nat ->
  (1 <= length (nth k (batches_of l) []) <= 100)%nat
  /\ ((S k < length (batches_of l))%nat ->
      length (nth k (batches_of l) []) = 100%nat).
Proof.
  intros Hk. destruct (batches_of_nth l Hk) as [-> Hlt].
  rewrite length_firstn, length_skipn. split; [lia|].
  intros Hk'. destruct (batches_of_nth l Hk') as [_ Hlt']. lia.
Qed.

End Batches.

Section AppendBlocks.

Variable block : Type.
Variable accepts : list (request block) -> bool.

Implicit Types (blocks : list block) (sent : list (request block))
  (starts : list nat).

(** The loop sends the batches of the start indices in order and stops
    behind the first one that is refused. *)
Lemma send_batches_spec (page_id : str) blocks starts :
  forall sent,
    let result := send_batches accepts page_id blocks starts sent in
    exists k,
      (k <= length starts)%nat
      /\ snd result
         = sent ++ map (fun i => Request page_id (slice blocks i (i + 100)))
                       (firstn k starts)
      /\ (fst result = Ret tt -> k = length starts)
      /\ (fst result = Ret tt
          \/ (fst result = Raise HTTPError /\ accepts (snd result) = false))
      /\ ((forall history, accepts history = true) -> fst result = Ret tt).
Proof.
  induction starts as [|i rest IH]; intros sent; cbv zeta; simpl.
  - exists 0%nat. rewrite app_nil_r.
    split; [lia|]. split; [reflexivity|]. split; [reflexivity|].
    split; [now left | reflexivity].
  - destruct (accepts (sent ++ [Request page_id (slice blocks i (i + 100))]))
      eqn:E.
    + destruct (IH (sent ++ [Request page_id (slice blocks i (i + 100))]))
        as (k & Hk & Hs & Hr & Hc & Ha).
      exists (S k). simpl.
      split; [lia|].
      split; [rewrite Hs, <- app_assoc; reflexivity|].
      split; [intros H; f_equal; now apply Hr|].
      split; [exact Hc | exact Ha].
    + exists 1%nat. simpl.
      split; [lia|]. split; [reflexivity|]. split; [discriminate|].
      split; [right; now split|].
      intros H. rewrite H in E. discriminate.
Qed.

(** C8.  The batches of [append_blocks] are consecutive pieces of the block
    list that make it up; none is empty or longer than 100, and all but the
    last hold exactly 100.  The requests sent carry the batches in order,
    starting with the first; the call returns exactly when all of them were
    sent and accepted, and otherwise it raises at the first refused batch
    and sends no further one.  With a service that accepts every request
    every block is sent exactly once. *)
Theorem append_blocks_sends_batches (page_id : str) blocks :
  let result := append_blocks accepts page_id blocks in
  let sent := snd result in
  concat (batches_of blocks) = blocks
  /\ (forall k, (k < length (batches_of blocks))%nat ->
        (1 <= length (nth k (batches_of blocks) []) <= 100)%nat
        /\ ((S k < length (batches_of blocks))%nat ->
            length (nth k (batches_of blocks) []) = 100%nat))
  /\ (exists k, (k <= length (batches_of blocks))%nat
                /\ sent = map (Request page_id) (firstn k (batches_of blocks)))
  /\ (fst result = Ret tt ->
      sent = map (Request page_id) (batches_of blocks)
      /\ concat (map (@children block) sent) = blocks)
  /\ (fst result = Ret tt
      \/ (fst result = Raise HTTPError /\ accepts sent = false))
  /\ ((forall history, accepts history = true) ->
      fst result = Ret tt
      /\ map (@children block) sent = batches_of blocks
      /\ concat (map (@children block) sent) = blocks).
Proof.
  intros result sent.
  destruct (send_batches_spec page_id blocks
              (range 0 (length blocks) 100) [])
    as (k & Hk & Hs & Hr & Hc & Ha).
  fold (append_blocks accepts page_id blocks) in Hs, Hr, Hc, Ha.
  fold result in Hs, Hr, Hc, Ha. fold sent in Hs, Hc.
  simpl in Hs.
  assert (Hsent : sent = map (Request page_id) (firstn k (batches_of blocks))).
  { rewrite Hs. unfold batches_of. rewrite firstn_map, map_map. reflexivity. }
  assert (Hchildren : forall bs : list (list block),
             map (@children block) (map (Request page_id) bs) = bs).
  { intros bs. rewrite map_map. simpl. apply map_id. }
  assert (Hall : fst result = Ret tt ->
                 sent = map (Request page_id) (batches_of blocks)).
  { intros H. rewrite Hsent. rewrite (Hr H). f_equal.
    apply firstn_all2. unfold batches_of. now rewrite length_map. }
  split; [apply batches_of_concat|].
  split; [intros j Hj; now apply batches_of_sizes|].
  split.
  { exists k. split; [|assumption]. unfold batches_of.
    now rewrite length_map. }
  split.
  { intros H. split; [now apply Hall|].
    rewrite (Hall H), Hchildren. apply batches_of_concat. }
  split; [assumption|].
  intros H. specialize (Ha H). split; [assumption|].
  rewrite (Hall Ha), Hchildren. split; [reflexivity | apply batches_of_concat].
Qed.

End AppendBlocks.

(** 250 blocks go out as batches of 100, 100 and 50; a service that refuses
    its second request gets the first two batches and no third. *)
Example append_blocks_250 :
  map (fun q => length (children q))
      (snd (append_blocks (fun _ => true) (lit "page") (seq 0 250)))
    = [100; 100; 50]%nat
  /\ fst (append_blocks (fun _ => true) (lit "page") (seq 0 250)) = Ret tt
  /\ map (fun q => length (children q))
         (snd (append_blocks (fun h => (length h <? 2)%nat) (lit "page")
                             (seq 0 250)))
     = [100; 100]%nat
  /\ fst (append_blocks (fun h => (length h <? 2)%nat) (lit "page") (seq 0 250))
     = Raise HTTPError.
Proof. repeat split; vm_compute; reflexivity. Qed.

(* ================================================================== *)
(** * Cocoa timestamps *)
(* ================================================================== *)

Module CocoaFacts.
Import Cocoa.
Local Open Scope Z_scope.

Lemma md_table :
  forallb (fun k => md_ok true (Z.of_nat k) && md_ok false (Z.of_nat k))
          (seq 0 365) = true.
Proof. vm_compute. reflexivity. Qed.

Lemma ord2md_spec (n : Z) (leapyear : bool) :
  0 <= n <= 364 ->
  let '(m, d) := ord2md n leapyear in
  1 <= m <= 12
  /\ 1 <= d <= (if (m =? 2) && leapyear then 29 else DAYS_IN_MONTH m)
  /\ DAYS_BEFORE_MONTH m + (if (m >? 2) && leapyear then 1 else 0) + d = n + 1.
Proof.
  intros Hn. pose proof md_table as T. rewrite forallb_forall in T.
  specialize (T (Z.to_nat n)).
  rewrite Z2Nat.id in T by lia.
  assert (Hin : In (Z.to_nat n) (seq 0 365)) by (apply in_seq; lia).
  specialize (T Hin). apply andb_true_iff in T as [T1 T2].
  assert (T : md_ok leapyear n = true) by (destruct leapyear; assumption).
  unfold md_ok in T. destruct (ord2md n leapyear) as [m d].
  rewrite !andb_true_iff in T. destruct T as ((((A & B) & C) & D) & E).
  apply Z.leb_le in A, B, C, D. apply Z.eqb_eq in E. lia.
Qed.

Lemma is_leap_spec (y : Z) :
  is_leap y = true <-> (y mod 4 = 0 /\ (y mod 100 <> 0 \/ y mod 400 = 0)).
Proof.
  unfold is_leap.
  rewrite andb_true_iff, orb_true_iff, negb_true_iff, !Z.eqb_eq, Z.eqb_neq.
  tauto.
Qed.

(** The leap test of [_ord2ymd] on the cycle counts agrees with [_is_leap]. *)
Lemma leapyear_flag (n400 n100 n4 n1 : Z) :
  0 <= n400 -> 0 <= n100 <= 3 -> 0 <= n4 <= 24 -> 0 <= n1 <= 3 ->
  is_leap (n400 * 400 + 1 + n100 * 100 + n4 * 4 + n1)
  = (n1 =? 3) && (negb (n4 =? 24) || (n100 =? 3)).
Proof.
  intros H400 H100 H4 H1.
  match goal with |- ?a = ?b => destruct b eqn:E end.
  - apply is_leap_spec.
    rewrite andb_true_iff, orb_true_iff, negb_true_iff, !Z.eqb_eq, Z.eqb_neq
      in E.
    Z.to_euclidean_division_equations. lia.
  - destruct (is_leap _) eqn:L; [|reflexivity].
    apply is_leap_spec in L.
    rewrite andb_false_iff, orb_false_iff, negb_false_iff, !Z.eqb_eq, Z.eqb_neq
      in E.
    Z.to_euclidean_division_equations. lia.
Qed.

Lemma days_before_year_cycles (n400 n100 n4 n1 : Z) :
  0 <= n400 -> 0 <= n100 <= 3 -> 0 <= n4 <= 24 -> 0 <= n1 <= 3 ->
  days_before_year (n400 * 400 + 1 + n100 * 100 + n4 * 4 + n1)
  = n400 * 146097 + n100 * 36524 + n4 * 1461 + n1 * 365.
Proof.
  intros H400 H100 H4 H1. unfold days_before_year.
  Z.to_euclidean_division_equations. lia.
Qed.

(** [_ord2ymd] is right on the whole range of ordinals: it returns a date
    of the calendar, and [_ymd2ord] takes that date back to the ordinal. *)
Lemma ord2ymd_spec (n : Z) :
  1 <= n <= MAXORDINAL ->
  let '(y, m, d) := ord2ymd n in
  1 <= y <= 9999 /\ 1 <= m <= 12 /\ 1 <= d <= days_in_month y m
  /\ ymd2ord y m d = n.
Proof.
  unfold MAXORDINAL. intros Hn. unfold ord2ymd.
  pose proof (Z.div_mod (n - 1) 146097 ltac:(lia)) as E1.
  pose proof (Z.mod_pos_bound (n - 1) 146097 ltac:(lia)) as B1.
  set (n400 := (n - 1) / 146097) in *. set (r1 := (n - 1) mod 146097) in *.
  pose proof (Z.div_mod r1 36524 ltac:(lia)) as E2.
  pose proof (Z.mod_pos_bound r1 36524 ltac:(lia)) as B2.
  set (n100 := r1 / 36524) in *. set (r2 := r1 mod 36524) in *.
  pose proof (Z.div_mod r2 1461 ltac:(lia)) as E3.
  pose proof (Z.mod_pos_bound r2 1461 ltac:(lia)) as B3.
  set (n4 := r2 / 1461) in *. set (r3 := r2 mod 1461) in *.
  pose proof (Z.div_mod r3 365 ltac:(lia)) as E4.
  pose proof (Z.mod_pos_bound r3 365 ltac:(lia)) as B4.
  set (n1 := r3 / 365) in *. set (r4 := r3 mod 365) in *.
  clearbody n400 r1 n100 r2 n4 r3 n1 r4.
  assert (H400 : 0 <= n400 <= 24) by lia.
  assert (H100 : 0 <= n100 <= 4) by lia.
  assert (H4 : 0 <= n4 <= 24) by lia.
  assert (H1 : 0 <= n1 <= 4) by lia.
  destruct ((n1 =? 4) || (n100 =? 4)) eqn:S.
  - assert (Hcase : (n1 = 4 /\ r4 = 0 /\ n100 <= 3 /\ n4 <= 23)
                    \/ (n100 = 4 /\ n4 = 0 /\ n1 = 0 /\ r4 = 0)).
    { apply orb_true_iff in S as [S | S]; apply Z.eqb_eq in S; lia. }
    assert (L : is_leap (n400 * 400 + 1 + n100 * 100 + n4 * 4 + n1 - 1) = true).
    { apply is_leap_spec. Z.to_euclidean_division_equations. lia. }
    unfold ymd2ord, days_in_month, days_before_month. rewrite L.
    change (12 =? 2) with false. change (12 >? 2) with true.
    change (DAYS_IN_MONTH 12) with 31. change (DAYS_BEFORE_MONTH 12) with 334.
    cbn [andb]. unfold days_before_year.
    repeat split; try lia.
    Z.to_euclidean_division_equations. lia.
  - apply orb_false_iff in S as [S1 S2]. apply Z.eqb_neq in S1, S2.
    pose proof (@leapyear_flag n400 n100 n4 n1 ltac:(lia) ltac:(lia)
                  ltac:(lia) ltac:(lia)) as HL.
    pose proof (@days_before_year_cycles n400 n100 n4 n1 ltac:(lia)
                  ltac:(lia) ltac:(lia) ltac:(lia)) as HD.
    pose proof (@ord2md_spec r4
                  ((n1 =? 3) && (negb (n4 =? 24) || (n100 =? 3)))
                  ltac:(lia)) as HM.
    destruct (ord2md r4 ((n1 =? 3) && (negb (n4 =? 24) || (n100 =? 3))))
      as [m d].
    destruct HM as (Hm & Hd & Hsum).
    unfold ymd2ord, days_in_month, days_before_month. rewrite HL, HD.
    repeat split; try lia.
Qed.

Lemma new_timedelta_normal (d s : Z) :
  0 <= s < 86400 ->
  new_timedelta d s 0
  = if Z.abs d >? 999999999 then Raise OverflowError
    else Ret (Timedelta d s 0).
Proof.
  intros Hs. unfold new_timedelta.
  change (0 / 1000000) with 0. change (0 mod 1000000) with 0.
  rewrite Z.add_0_r, Z.div_small, Z.mod_small, Z.add_0_r by lia.
  reflexivity.
Qed.

Lemma new_timedelta_seconds (s : Z) :
  new_timedelta 0 s 0
  = if Z.abs (s / 86400) >? 999999999 then Raise OverflowError
    else Ret (Timedelta (s / 86400) (s mod 86400) 0).
Proof.
  unfold new_timedelta.
  change (0 / 1000000) with 0. change (0 mod 1000000) with 0.
  now rewrite Z.add_0_r, Z.add_0_l.
Qed.

(** Adding a normalized whole number of days and seconds to the epoch. *)
Lemma epoch_add (d s : Z) :
  0 <= s < 86400 ->
  datetime_add (Datetime 2001 1 1 0 0 0 0) (Timedelta d s 0)
  = if (Z.abs (730486 + d) >? 999999999)
       || negb ((0 <? 730486 + d) && (730486 + d <=? MAXORDINAL))
    then Raise OverflowError
    else let '(y, m, dd) := ord2ymd (730486 + d) in
         Ret (Datetime y m dd (s / 3600) (s mod 3600 / 60) (s mod 3600 mod 60) 0).
Proof.
  intros Hs. unfold datetime_add.
  change (toordinal (Datetime 2001 1 1 0 0 0 0)) with 730486.
  cbn [hour minute second microsecond].
  change (0 * 3600 + 0 * 60 + 0) with 0.
  change (new_timedelta 730486 0 0) with (Ret (Timedelta 730486 0 0)).
  cbn [bind days seconds microseconds].
  rewrite Z.add_0_l. change (0 + 0) with 0.
  rewrite (new_timedelta_normal _ Hs).
  destruct (Z.abs (730486 + d) >? 999999999); [reflexivity|].
  cbn [bind days seconds microseconds orb].
  destruct ((0 <? 730486 + d) && (730486 + d <=? MAXORDINAL));
    reflexivity.
Qed.



End CocoaFacts.

(* ================================================================== *)
(** * Decimal output and input *)
(* ================================================================== *)

Section Decimal.

Lemma decimal_in_cons (z : N) (r : list N) (c : char) :
  decimal_in (z :: r) c
  = if in_range z (z + 9) c then Some (c - z)%N else decimal_in r c.
Proof. reflexivity. Qed.

Lemma decimal_in_bound (zs : list N) (c : char) (d : N) :
  decimal_in zs c = Some d -> (d <= 9)%N.
Proof.
  induction zs as [|z r IH]; simpl; [discriminate|].
  destruct (in_range z (z + 9) c) eqn:E; [|exact IH].
  apply in_range_spec in E. intros H. injection H as <-. lia.
Qed.

Lemma decimal_value_bound (c : char) (d : N) :
  decimal_value c = Some d -> (d <= 9)%N.
Proof. apply decimal_in_bound. Qed.

(** The ASCII digits have their usual values. *)
Lemma decimal_value_ascii (k : N) :
  (k <= 9)%N -> decimal_value (48 + k)%N = Some k.
Proof.
  intros H. unfold decimal_value, decimal_zeros. rewrite decimal_in_cons.
  assert (E : in_range 48 (48 + 9) (48 + k)%N = true)
    by (apply in_range_spec; lia).
  rewrite E. f_equal. lia.
Qed.

Lemma digits_from_acc (fuel : nat) :
  forall n acc, digits_from fuel n acc = digits_from fuel n [] ++ acc.
Proof.
  induction fuel as [|fuel IH]; intros n acc; [reflexivity|].
  simpl. destruct (n <? 10)%N; [reflexivity|].
  rewrite IH. rewrite (IH _ [(48 + n mod 10)%N]). now rewrite <- app_assoc.
Qed.

Lemma decimal_number_app (a b : str) :
  decimal_number (a ++ b)
  = fold_left (fun acc c => (acc * 10 + match decimal_value c with
                                         | Some d => d
                                         | None => 0
                                         end)%N) b (decimal_number a).
Proof. unfold decimal_number. now rewrite fold_left_app. Qed.

(** With fuel for the binary digits, the digits written are decimal ASCII
    digits and read back as the number. *)
Lemma digits_from_spec (fuel : nat) :
  forall n,
    (n < 2 ^ N.of_nat fuel)%N -> (0 < fuel)%nat ->
    decimal_number (digits_from fuel n []) = n
    /\ forallb (in_range 48 57) (digits_from fuel n []) = true
    /\ digits_from fuel n [] <> [].
Proof.
  induction fuel as [|fuel IH]; intros n Hn Hf; [lia|].
  cbn [digits_from]. destruct (N.ltb_spec n 10) as [Hlt | Hge].
  - rewrite N.mod_small by assumption.
    repeat split; try discriminate.
    + unfold decimal_number. cbn [fold_left].
      now rewrite decimal_value_ascii by lia.
    + cbn [forallb]. rewrite andb_true_r. apply in_range_spec. lia.
  - rewrite digits_from_acc.
    assert (Hq : (n / 10 < 2 ^ N.of_nat fuel)%N).
    { rewrite Nat2N.inj_succ, N.pow_succ_r' in Hn.
      apply N.Div0.div_lt_upper_bound. lia. }
    assert (Hfuel : (0 < fuel)%nat).
    { destruct fuel; [|lia]. cbn in Hq. lia. }
    destruct (IH _ Hq Hfuel) as (E1 & E2 & E3).
    pose proof (N.mod_lt n 10 ltac:(lia)) as Hm.
    repeat split.
    + rewrite decimal_number_app, E1. cbn [fold_left].
      rewrite decimal_value_ascii by (clear - Hm; lia).
      pose proof (N.div_mod n 10 ltac:(lia)) as Hd. clear - Hd. lia.
    + rewrite forallb_app. apply andb_true_iff. split; [exact E2|].
      cbn [forallb]. rewrite andb_true_r. apply in_range_spec.
      clear - Hm. generalize dependent (n mod 10)%N. intros; lia.
    + destruct (digits_from fuel (n / 10) []); [congruence | discriminate].
Qed.

Lemma size_nat_bound (n : N) : (n < 2 ^ N.of_nat (S (N.size_nat n)))%N.
Proof.
  destruct n as [|p]; [reflexivity|].
  rewrite Nat2N.inj_succ, N.pow_succ_r'.
  assert (H : (N.pos p < 2 ^ N.of_nat (N.size_nat (N.pos p)))%N).
  { simpl N.size_nat. induction p as [p IH | p IH |]; simpl Pos.size_nat;
      rewrite ?Nat2N.inj_succ, ?N.pow_succ_r'; lia. }
  lia.
Qed.

(** [str_of_N] writes ASCII digits that read back as the number. *)
Lemma str_of_N_spec (n : N) :
  decimal_number (str_of_N n) = n
  /\ forallb (in_range 48 57) (str_of_N n) = true
  /\ str_of_N n <> [].
Proof.
  unfold str_of_N. apply digits_from_spec; [apply size_nat_bound | lia].
Qed.

End Decimal.

(* ================================================================== *)
(** * File names and dates *)
(* ================================================================== *)

Section FileDates.

Lemma below_in (n b : N) :
  (n < b)%N -> In n (map N.of_nat (seq 0 (N.to_nat b))).
Proof.
  intros H. apply in_map_iff. exists (N.to_nat n).
  split; [apply N2Nat.id | apply in_seq; lia].
Qed.

Lemma pad2_table :
  forallb (fun n => str_eqb (pad 2 (Z.of_N n))
                            [(48 + n / 10)%N; (48 + n mod 10)%N])
          (map N.of_nat (seq 0 100)) = true.
Proof. vm_compute. reflexivity. Qed.

Lemma pad4_table :
  forallb (fun n => str_eqb (pad 4 (Z.of_N n))
                            [(48 + n / 1000)%N; (48 + (n / 100) mod 10)%N;
                             (48 + (n / 10) mod 10)%N; (48 + n mod 10)%N])
          (map N.of_nat (seq 0 (N.to_nat 10000))) = true.
Proof. vm_compute. reflexivity. Qed.

(** Numbers below 100 are written with two digits, numbers below 10000 with
    four. *)
Lemma pad2_digits (n : N) :
  (n < 100)%N -> pad 2 (Z.of_N n) = [(48 + n / 10)%N; (48 + n mod 10)%N].
Proof.
  intros H. apply str_eqb_eq.
  exact (proj1 (forallb_forall _ _) pad2_table n (below_in H)).
Qed.

Lemma pad4_digits (n : N) :
  (n < 10000)%N ->
  pad 4 (Z.of_N n) = [(48 + n / 1000)%N; (48 + (n / 100) mod 10)%N;
                      (48 + (n / 10) mod 10)%N; (48 + n mod 10)%N].
Proof.
  intros H. apply str_eqb_eq.
  exact (proj1 (forallb_forall _ _) pad4_table n (below_in H)).
Qed.

Lemma after_prefix_app (p r : str) : after_prefix p (p ++ r) = Some r.
Proof.
  induction p as [|a p IH]; simpl; [now destruct r|].
  now rewrite N.eqb_refl.
Qed.

Lemma after_prefix_inv (p s r : str) : after_prefix p s = Some r -> s = p ++ r.
Proof.
  revert s. induction p as [|a p IH]; intros s; simpl.
  - destruct s; intros H; injection H as <-; reflexivity.
  - destruct s as [|b s]; [discriminate|].
    destruct (N.eqb_spec a b) as [<- | _]; [|discriminate].
    intros H. f_equal. now apply IH.
Qed.

Lemma is_decimal_ascii (k : N) : (k <= 9)%N -> is_decimal (48 + k)%N = true.
Proof. intros H. unfold is_decimal. now rewrite decimal_value_ascii. Qed.

Lemma ascii_sub (k : N) : (48 + k - 48)%N = k.
Proof. lia. Qed.

Lemma month_table :
  forallb (fun m => ((((48 + m / 10 =? 49) && in_range 48 50 (48 + m mod 10))
                      || ((48 + m / 10 =? 48) && in_range 49 57 (48 + m mod 10)))
                     && (m / 10 * 10 + m mod 10 =? m))%N)
          (map N.of_nat (seq 1 12)) = true.
Proof. vm_compute. reflexivity. Qed.

Lemma day_table :
  forallb (fun d => ((((48 + d / 10 =? 51) && in_range 48 49 (48 + d mod 10))
                      || in_range 49 50 (48 + d / 10)
                      || ((48 + d / 10 =? 48) && in_range 49 57 (48 + d mod 10)))
                     && (d / 10 * 10 + d mod 10 =? d))%N)
          (map N.of_nat (seq 1 31)) = true.
Proof. vm_compute. reflexivity. Qed.

Lemma from_one_in (n b : N) :
  (1 <= n <= b)%N -> In n (map N.of_nat (seq 1 (N.to_nat b))).
Proof.
  intros H. apply in_map_iff. exists (N.to_nat n).
  split; [apply N2Nat.id | apply in_seq; lia].
Qed.

Lemma days_in_month_le (y m : N) : (28 <= days_in_month y m <= 31)%N.
Proof.
  unfold days_in_month.
  destruct (m =? 2)%N; [destruct (is_leap y); lia|].
  destruct ((m =? 4) || (m =? 6) || (m =? 9) || (m =? 11))%N; lia.
Qed.

Lemma year_digits (y : N) :
  (y < 10000)%N ->
  (y / 1000 * 1000 + (y / 100) mod 10 * 100 + (y / 10) mod 10 * 10 + y mod 10
   = y)%N
  /\ (y / 1000 <= 9)%N.
Proof.
  intros H.
  pose proof (N.div_mod y 10 ltac:(lia)) as H1.
  pose proof (N.div_mod (y / 10) 10 ltac:(lia)) as H2.
  pose proof (N.div_mod (y / 100) 10 ltac:(lia)) as H3.
  pose proof (N.mod_lt y 10 ltac:(lia)) as L1.
  pose proof (N.mod_lt (y / 10) 10 ltac:(lia)) as L2.
  pose proof (N.mod_lt (y / 100) 10 ltac:(lia)) as L3.
  replace (y / 100)%N with (y / 10 / 10)%N in *
    by (rewrite N.Div0.div_div; reflexivity).
  replace (y / 1000)%N with (y / 10 / 10 / 10)%N
    by (rewrite !N.Div0.div_div; reflexivity).
  generalize dependent (y mod 10)%N. intros a ? ?.
  generalize dependent ((y / 10) mod 10)%N. intros b ? ?.
  generalize dependent ((y / 10 / 10) mod 10)%N. intros c ? ?.
  generalize dependent (y / 10 / 10 / 10)%N. intros q ?.
  generalize dependent (y / 10 / 10)%N. intros q2 ? ?.
  generalize dependent (y / 10)%N. intros q1 ? ?.
  lia.
Qed.

(** The eight characters of a calendar date are read back as the date. *)
Lemma strptime_Ymd_roundtrip (d : date) :
  calendar_date d -> strptime_Ymd (Ymd d) = Ret d.
Proof.
  destruct d as [y m dd]. unfold calendar_date, Ymd.
  cbn [year month day].
  intros (Hy & Hm & Hd).
  pose proof (days_in_month_le y m) as Hdim.
  rewrite pad4_digits, !pad2_digits by lia. cbn [app].
  destruct (year_digits (y := y) ltac:(lia)) as [Ey Hq].
  pose proof (N.mod_lt y 10 ltac:(lia)).
  pose proof (N.mod_lt (y / 10) 10 ltac:(lia)).
  pose proof (N.mod_lt (y / 100) 10 ltac:(lia)).
  pose proof (N.mod_lt dd 10 ltac:(lia)).
  unfold strptime_Ymd.
  rewrite !decimal_value_ascii by (generalize dependent (y / 1000)%N;
    generalize dependent ((y / 100) mod 10)%N;
    generalize dependent ((y / 10) mod 10)%N;
    generalize dependent (y mod 10)%N;
    generalize dependent (dd mod 10)%N; intros; lia).
  pose proof (proj1 (forallb_forall _ _) month_table m
                (@from_one_in m 12 ltac:(lia))) as Tm.
  pose proof (proj1 (forallb_forall _ _) day_table dd
                (@from_one_in dd 31 ltac:(lia))) as Td.
  cbv beta in Tm, Td.
  apply andb_true_iff in Tm as [Tm Em]. apply andb_true_iff in Td as [Td Ed].
  apply N.eqb_eq in Em, Ed.
  rewrite Tm, Td. cbn [andb]. rewrite !ascii_sub, Ey, Em, Ed.
  replace ((1 <=? y)%N) with true by (symmetry; apply N.leb_le; lia).
  replace ((dd <=? days_in_month y m)%N) with true
    by (symmetry; apply N.leb_le; lia).
  reflexivity.
Qed.

Lemma Ymd_shape (d : date) :
  calendar_date d ->
  length (Ymd d) = 8%nat /\ forallb is_decimal (Ymd d) = true.
Proof.
  destruct d as [y m dd]. unfold calendar_date, Ymd.
  cbn [year month day]. intros (Hy & Hm & Hd).
  pose proof (days_in_month_le y m) as Hdim.
  rewrite pad4_digits, !pad2_digits by lia. cbn [app].
  split; [reflexivity|].
  destruct (year_digits (y := y) ltac:(lia)) as [_ Hq].
  assert (Hmq : (m / 10 <= 9)%N)
    by (apply N.lt_succ_r, N.Div0.div_lt_upper_bound; lia).
  assert (Hdq : (dd / 10 <= 9)%N)
    by (apply N.lt_succ_r, N.Div0.div_lt_upper_bound; lia).
  assert (Hmod : forall n, (n mod 10 <= 9)%N).
  { intros n. pose proof (N.mod_lt n 10 ltac:(lia)) as L.
    generalize dependent (n mod 10)%N. intros; lia. }
  cbn [forallb]. now rewrite !is_decimal_ascii by auto.
Qed.

End FileDates.

(** The name [<YYYYMMDD>_kindle_annotations_raw.txt] of a calendar date,
    years 1 to 9999, is accepted by [extract_date_from_filename] and gives
    back that date; a newline at the end of the name makes no difference. *)
Theorem extract_date_roundtrip (d : date) :
  calendar_date d ->
  extract_date_from_filename (Ymd d ++ RAW_SUFFIX) = Ret d
  /\ extract_date_from_filename (Ymd d ++ RAW_SUFFIX ++ [NEWLINE]) = Ret d.
Proof.
  intros H. destruct (Ymd_shape H) as [Hlen Hdec].
  assert (F : forall r, firstn 8 (Ymd d ++ r) = Ymd d).
  { intros r. rewrite <- Hlen. rewrite firstn_app, Nat.sub_diag, firstn_all.
    simpl. apply app_nil_r. }
  assert (S : forall r, skipn 8 (Ymd d ++ r) = r).
  { intros r. rewrite <- Hlen. rewrite skipn_app, Nat.sub_diag, skipn_all.
    reflexivity. }
  assert (E : forall r,
             filename_date (Ymd d ++ RAW_SUFFIX ++ r)
             = match r with
               | [] => Some (Ymd d)
               | [c] => if (c =? NEWLINE)%N then Some (Ymd d) else None
               | _ => None
               end).
  { intros r. unfold filename_date. rewrite F, S, Hlen, Hdec.
    cbn [Nat.eqb andb]. unfold RAW_SUFFIX. now rewrite after_prefix_app. }
  unfold extract_date_from_filename. split.
  - rewrite <- (app_nil_r RAW_SUFFIX), E. now apply strptime_Ymd_roundtrip.
  - rewrite E. cbn [NEWLINE]. rewrite N.eqb_refl.
    now apply strptime_Ymd_roundtrip.
Qed.

Lemma extract_date_roundtrip_witness :
  calendar_date (Date 2024 2 29)
  /\ extract_date_from_filename (Ymd (Date 2024 2 29) ++ RAW_SUFFIX)
     = Ret (Date 2024 2 29).
Proof.
  assert (H : calendar_date (Date 2024 2 29))
    by (vm_compute; intuition discriminate).
  split; [exact H|]. exact (proj1 (extract_date_roundtrip H)).
Defined.

Example Ymd_leap_day :
  Ymd (Date 2024 2 29) ++ RAW_SUFFIX = lit "20240229_kindle_annotations_raw.txt".
Proof. vm_compute. reflexivity. Qed.


(* ================================================================== *)
(** * The last element of a sorted list *)
(* ================================================================== *)

Section SortLast.
Variables A K : Type.
Variable lt : K -> K -> bool.
Variable key : A -> K.

Hypothesis lt_asym : forall a b, lt a b = true -> lt b a = false.
Hypothesis le_trans :
  forall a b c, lt b a = false -> lt c b = false -> lt c a = false.

Lemma forallb_false (f : A -> bool) (l : list A) :
  forallb f l = false -> exists y, In y l /\ f y = false.
Proof.
  induction l as [|x r IH]; simpl; [discriminate|].
  destruct (f x) eqn:E; simpl.
  - intros H. destruct (IH H) as (y & Hy & Hf). exists y. now split; [right|].
  - intros _. exists x. now split; [left|].
Qed.

Lemma last_any (l : list A) (d d' : A) : l <> [] -> last l d = last l d'.
Proof.
  intros H. destruct (exists_last H) as (init & w & ->).
  now rewrite !last_last.
Qed.

Lemma insert_by_nonempty (x : A) (l : list A) : insert_by lt key x l <> [].
Proof. destruct l as [|y r]; simpl; [|destruct (lt (key y) (key x))]; discriminate. Qed.

(** The element inserted comes last exactly when every other key is less. *)
Lemma last_insert_by (x : A) (l : list A) (d : A) :
  last (insert_by lt key x l) d
  = if forallb (fun y => lt (key y) (key x)) l then x else last l x.
Proof.
  induction l as [|y r IH]; [reflexivity|].
  cbn [insert_by forallb]. destruct (lt (key y) (key x)) eqn:E; cbn [andb].
  - pose proof (insert_by_nonempty x r) as Hne.
    destruct (insert_by lt key x r) as [|z s] eqn:I; [congruence|].
    change (last (y :: z :: s) d) with (last (z :: s) d). rewrite IH.
    destruct r as [|z' r']; [reflexivity|].
    destruct (forallb _ (z' :: r')); reflexivity.
  - change (last (x :: y :: r) d) with (last (y :: r) d).
    apply last_any. discriminate.
Qed.

(** Of a list that is not empty the stable sort puts last the element that
    stands last among those with a greatest key: the keys behind it are
    less, and no key before it is greater. *)
Lemma last_sort_by (l : list A) (d : A) :
  l <> [] ->
  exists pre x post,
    l = pre ++ x :: post
    /\ last (sort_by lt key l) d = x
    /\ Forall (fun y => lt (key y) (key x) = true) post
    /\ Forall (fun y => lt (key x) (key y) = false) pre.
Proof.
  induction l as [|a r IH]; [congruence|]. intros _.
  cbn [sort_by]. rewrite last_insert_by.
  destruct (forallb (fun y => lt (key y) (key a)) (sort_by lt key r)) eqn:F.
  - exists [], a, r. repeat split; [|constructor].
    apply Forall_forall. intros y Hy.
    rewrite forallb_forall in F. apply F.
    now apply (Permutation_in _ (sort_by_perm lt key r)).
  - assert (Hr : r <> []) by (intros ->; discriminate).
    destruct (IH Hr) as (pre & x & post & E & L & Hpost & Hpre).
    exists (a :: pre), x, post.
    rewrite (@last_any _ a d), L by (intros H; apply sort_by_nil in H; congruence).
    repeat split; [now rewrite E | assumption|].
    constructor; [|assumption].
    assert (Hex : exists y, In y r /\ lt (key y) (key a) = false).
    { destruct (forallb_false _ _ F) as (y & Hy & Hf). exists y. split; [|exact Hf].
      now apply (Permutation_in _ (Permutation_sym (sort_by_perm lt key r))). }
    destruct Hex as (y & Hy & Hf).
    assert (Hyx : lt (key x) (key y) = false).
    { rewrite E in Hy. apply in_app_or in Hy as [Hy | [<- | Hy]].
      - rewrite Forall_forall in Hpre. now apply Hpre.
      - destruct (lt (key x) (key x)) eqn:Ex; [|reflexivity].
        now rewrite (lt_asym Ex) in Ex.
      - rewrite Forall_forall in Hpost. apply lt_asym. now apply Hpost. }
    exact (le_trans Hf Hyx).
Qed.

Lemma last_filter (f : A -> bool) (l : list A) (d : A) :
  l <> [] -> f (last l d) = true -> last (filter f l) d = last l d.
Proof.
  intros H. destruct (exists_last H) as (init & w & ->).
  rewrite last_last. intros Hw. rewrite filter_app. simpl. rewrite Hw.
  apply last_last.
Qed.

(** That element is the only one with the two properties. *)
Lemma last_sort_by_unique (pre post : list A) (x d : A) :
  Forall (fun y => lt (key y) (key x) = true) post ->
  Forall (fun y => lt (key x) (key y) = false) pre ->
  last (sort_by lt key (pre ++ x :: post)) d = x.
Proof.
  intros Hpost Hpre.
  destruct (@last_sort_by (pre ++ x :: post) d) as (pre2 & x2 & post2 & E & L & Hpost2 & Hpre2).
  { destruct pre; discriminate. }
  rewrite L. rewrite Forall_forall in Hpost, Hpre, Hpost2, Hpre2.
  apply app_eq_app in E as (m & [[E1 E2] | [E1 E2]]).
  - destruct m as [|z m].
    + rewrite app_nil_l in E2. now injection E2.
    + injection E2 as <- E2.
      assert (H1 : lt (key x) (key x2) = true)
        by (apply Hpost2; rewrite E2; apply in_or_app; right; now left).
      assert (H2 : lt (key x) (key x2) = false)
        by (apply Hpre; rewrite E1; apply in_or_app; right; now left).
      congruence.
  - destruct m as [|z m].
    + rewrite app_nil_l in E2. now injection E2.
    + injection E2 as <- E2.
      assert (H1 : lt (key x2) (key x) = true)
        by (apply Hpost; rewrite E2; apply in_or_app; right; now left).
      assert (H2 : lt (key x2) (key x) = false)
        by (apply Hpre2; rewrite E1; apply in_or_app; right; now left).
      congruence.
Qed.

End SortLast.

(* ================================================================== *)
(** * Which file is selected, and selecting again *)
(* ================================================================== *)

Section Reselect.

Implicit Types (dir : directory) (p : dirent).

(** The function in closed form. *)
Lemma select_closed (delete_old : bool) dir :
  NoDup (map name dir) ->
  select_and_cleanup_raw_files delete_old dir
  = match dated_list dir with
    | [] => Raise FileNotFoundError
    | first :: _ =>
        let (newest_date, newest_file) :=
          last (sort_by date_lt fst (dated_list dir)) first in
        Ret (newest_file,
             if delete_old
             then filter (fun p => negb (is_older newest_date p)) dir
             else dir)
    end.
Proof.
  intros ND. unfold select_and_cleanup_raw_files.
  rewrite collect_dated_spec. simpl.
  destruct (dated_list dir) as [|first rest] eqn:E; [reflexivity|].
  rewrite <- E.
  set (sorted := sort_by date_lt fst (dated_list dir)).
  assert (Hperm : Permutation (dated_list dir) sorted) by apply sort_by_perm.
  destruct (last sorted first) as [d_max n_max].
  destruct delete_old; [|reflexivity].
  rewrite delete_older_spec.
  - simpl. do 2 f_equal.
    apply filter_ext_in. intros p Hp. f_equal. unfold is_older.
    destruct (existsb _ sorted) eqn:Ex.
    + apply existsb_exists in Ex as ([d n] & Hin & Hc). simpl in Hc.
      apply andb_true_iff in Hc as [Hlt Hn]. apply str_eqb_eq in Hn.
      apply (Permutation_in _ (Permutation_sym Hperm)) in Hin.
      apply in_dated_list in Hin as (q & Hq & Hdq & Hnq).
      assert (q = p)
        by (apply (@NoDup_name_inj dir q p ND Hq Hp); congruence).
      subst q. now rewrite Hdq.
    + destruct (dated p) as [d|] eqn:Hd; [|reflexivity].
      destruct (date_lt d d_max) eqn:Hlt; [|reflexivity].
      assert (Hin : In (d, name p) sorted).
      { apply (Permutation_in _ Hperm). apply in_dated_list. now exists p. }
      assert (Ht : existsb (fun dn => date_lt (fst dn) d_max
                                      && str_eqb (snd dn) (name p)) sorted
                   = true).
      { apply existsb_exists. exists (d, name p). split; [assumption|].
        simpl. now rewrite Hlt, str_eqb_refl. }
      congruence.
  - apply (Permutation_NoDup (Permutation_map snd Hperm)).
    now apply dated_list_names.
  - intros [d n] Hin. simpl.
    apply (Permutation_in _ (Permutation_sym Hperm)) in Hin.
    apply in_dated_list in Hin as (q & Hq & _ & <-). now apply in_map.
Qed.

Lemma dated_list_app dir1 dir2 :
  dated_list (dir1 ++ dir2) = dated_list dir1 ++ dated_list dir2.
Proof. apply flat_map_app. Qed.

(** A place in the list of dated files is a place in the directory. *)
Lemma dated_list_split dir :
  forall pre d n post,
    dated_list dir = pre ++ (d, n) :: post ->
    exists dir1 p dir2,
      dir = dir1 ++ p :: dir2
      /\ dated_list dir1 = pre /\ dated p = Some d /\ name p = n
      /\ dated_list dir2 = post.
Proof.
  induction dir as [|q r IH]; intros pre d n post E.
  - destruct pre; discriminate.
  - change (dated_list (q :: r))
      with (match dated q with Some d => [(d, name q)] | None => [] end
            ++ dated_list r) in E.
    destruct (dated q) as [dq|] eqn:Hq.
    + destruct pre as [|x pre].
      * injection E as <- <- E. exists [], q, r. now repeat split.
      * injection E as <- E.
        destruct (IH _ _ _ _ E) as (dir1 & p & dir2 & -> & H1 & H2 & H3 & H4).
        exists (q :: dir1), p, dir2. repeat split; try assumption.
        change (dated_list (q :: dir1))
          with (match dated q with Some d => [(d, name q)] | None => [] end
                ++ dated_list dir1).
        now rewrite Hq, H1.
    + destruct (IH _ _ _ _ E) as (dir1 & p & dir2 & -> & H1 & H2 & H3 & H4).
      exists (q :: dir1), p, dir2. repeat split; try assumption.
      change (dated_list (q :: dir1))
        with (match dated q with Some d => [(d, name q)] | None => [] end
              ++ dated_list dir1).
      now rewrite Hq.
Qed.

Lemma dated_list_filter (newest : date) dir :
  dated_list (filter (fun p => negb (is_older newest p)) dir)
  = filter (fun dn => negb (date_lt (fst dn) newest)) (dated_list dir).
Proof.
  induction dir as [|q r IH]; [reflexivity|].
  change (dated_list (q :: r))
    with (match dated q with Some d => [(d, name q)] | None => [] end
          ++ dated_list r).
  rewrite filter_app, <- IH. cbn [filter]. unfold is_older at 1.
  destruct (dated q) as [dq|] eqn:Hq; cbn [filter fst].
  - destruct (date_lt dq newest); cbn [negb]; [reflexivity|].
    change (dated_list (q :: ?l))
      with (match dated q with Some d => [(d, name q)] | None => [] end
            ++ dated_list l).
    now rewrite Hq.
  - cbn [negb].
    change (dated_list (q :: ?l))
      with (match dated q with Some d => [(d, name q)] | None => [] end
            ++ dated_list l).
    now rewrite Hq.
Qed.

Lemma NoDup_names_filter (f : dirent -> bool) dir :
  NoDup (map name dir) -> NoDup (map name (filter f dir)).
Proof.
  induction dir as [|q r IH]; simpl; intros ND; [constructor|].
  inversion ND as [|? ? Hq Hr]; subst.
  destruct (f q); simpl; [|now apply IH].
  constructor; [|now apply IH].
  intros Hin. apply Hq. apply in_map_iff in Hin as (p & Hn & Hp).
  apply filter_In in Hp as [Hp _]. apply in_map_iff. now exists p.
Qed.

End Reselect.

(** The file returned is the one that [iterdir] yields last among the raw
    annotation files with the newest date: every raw annotation file behind
    it in the directory is older, and none before it is newer. *)
Theorem select_last_of_newest (delete_old : bool) (raw_dir dir' : directory)
    (n : str) :
  NoDup (map name raw_dir) ->
  select_and_cleanup_raw_files delete_old raw_dir = Ret (n, dir') ->
  exists before p behind newest_date,
    raw_dir = before ++ p :: behind
    /\ name p = n /\ dated p = Some newest_date
    /\ Forall (fun q => forall d, dated q = Some d ->
                                  date_lt d newest_date = true) behind
    /\ Forall (fun q => forall d, dated q = Some d ->
                                  date_lt newest_date d = false) before.
Proof.
  intros ND. rewrite select_closed by assumption.
  destruct (dated_list raw_dir) as [|first rest] eqn:E; [discriminate|].
  rewrite <- E.
  destruct (@last_sort_by _ _ date_lt fst date_lt_asym date_le_trans
              (dated_list raw_dir) first)
    as (pre & [d_max n_max] & post & Hl & L & Hpost & Hpre).
  { rewrite E. discriminate. }
  rewrite L. intros H. injection H as <- _.
  destruct (dated_list_split _ _ _ _ _ Hl)
    as (dir1 & p & dir2 & Hdir & H1 & H2 & H3 & H4).
  exists dir1, p, dir2, d_max. repeat split; try assumption.
  - apply Forall_forall. intros q Hq d Hd.
    rewrite Forall_forall in Hpost.
    apply (Hpost (d, name q)). rewrite <- H4. apply in_dated_list. now exists q.
  - apply Forall_forall. intros q Hq d Hd.
    rewrite Forall_forall in Hpre.
    apply (Hpre (d, name q)). rewrite <- H1. apply in_dated_list. now exists q.
Qed.

Lemma select_last_of_newest_witness :
  exists before p behind newest_date,
    sample_dir = before ++ p :: behind
    /\ name p = lit "20250315_kindle_annotations_raw.txt" ++ [NEWLINE]
    /\ dated p = Some newest_date
    /\ Forall (fun q => forall d, dated q = Some d ->
                                  date_lt d newest_date = true) behind
    /\ Forall (fun q => forall d, dated q = Some d ->
                                  date_lt newest_date d = false) before.
Proof.
  apply (@select_last_of_newest true sample_dir
           (filter (fun p => negb (is_older (Date 2025 3 15) p)) sample_dir)).
  - repeat constructor; simpl; intuition discriminate.
  - vm_compute. reflexivity.
Defined.

(** The selection does not depend on [delete_old], the file selected is
    still in the directory afterwards, and selecting again in the directory
    left behind returns the same file and deletes nothing. *)
Theorem select_again (raw_dir dir' : directory) (n : str) :
  NoDup (map name raw_dir) ->
  select_and_cleanup_raw_files true raw_dir = Ret (n, dir') ->
  select_and_cleanup_raw_files false raw_dir = Ret (n, raw_dir)
  /\ In n (map name dir')
  /\ select_and_cleanup_raw_files true dir' = Ret (n, dir').
Proof.
  intros ND. rewrite !select_closed by assumption.
  destruct (dated_list raw_dir) as [|first rest] eqn:E; [discriminate|].
  rewrite <- E.
  destruct (@last_sort_by _ _ date_lt fst date_lt_asym date_le_trans
              (dated_list raw_dir) first)
    as (pre & [d_max n_max] & post & Hl & L & Hpost & Hpre).
  { rewrite E. discriminate. }
  rewrite L. intros H. injection H as <- <-.
  split; [reflexivity|].
  set (keep := fun p : dirent => negb (is_older d_max p)).
  set (k := fun dn : date * str => negb (date_lt (fst dn) d_max)).
  assert (Hk : k (d_max, n_max) = true)
    by (unfold k; simpl; now rewrite date_lt_irrefl).
  assert (Hd' : dated_list (filter keep raw_dir)
                = filter k pre ++ (d_max, n_max) :: filter k post).
  { unfold keep. rewrite dated_list_filter. fold k.
    rewrite Hl, filter_app. cbn [filter]. now rewrite Hk. }
  split.
  - assert (Hin : In (d_max, n_max) (dated_list (filter keep raw_dir)))
      by (rewrite Hd'; apply in_or_app; right; now left).
    apply in_dated_list in Hin as (p & Hp & _ & <-). now apply in_map.
  - rewrite select_closed by now apply NoDup_names_filter.
    destruct (dated_list (filter keep raw_dir)) as [|first' rest'] eqn:E'.
    { destruct (filter k pre); discriminate. }
    rewrite Hd'.
    rewrite (@last_sort_by_unique _ _ date_lt fst date_lt_asym date_le_trans).
    + do 2 f_equal. fold keep. rewrite filter_filter.
      apply filter_ext. intros p. now destruct (keep p).
    + apply Forall_forall. intros y Hy. apply filter_In in Hy as [Hy _].
      rewrite Forall_forall in Hpost. now apply Hpost.
    + apply Forall_forall. intros y Hy. apply filter_In in Hy as [Hy _].
      rewrite Forall_forall in Hpre. now apply Hpre.
Qed.

Lemma select_again_witness :
  let dir' := filter (fun p => negb (is_older (Date 2025 3 15) p)) sample_dir in
  In (lit "20250315_kindle_annotations_raw.txt" ++ [NEWLINE]) (map name dir')
  /\ select_and_cleanup_raw_files true dir'
     = Ret (lit "20250315_kindle_annotations_raw.txt" ++ [NEWLINE], dir').
Proof.
  refine (proj2 (@select_again sample_dir _ _ _ _)).
  - repeat constructor; simpl; intuition discriminate.
  - vm_compute. reflexivity.
Defined.

(* ================================================================== *)
(** * More on splitting *)
(* ================================================================== *)

Section SplitFacts.
Variable sep : char.

(** A string is a part without the separator and then nothing, or the
    separator and a rest. *)
Lemma span_sep (s : str) :
  exists a rest,
    s = a ++ rest /\ free sep a = true
    /\ (rest = [] \/ exists r, rest = sep :: r).
Proof.
  induction s as [|c r IH].
  - exists [], []. repeat split. now left.
  - destruct (N.eqb_spec c sep) as [-> | Hc].
    + exists [], (sep :: r). repeat split. right. now exists r.
    + destruct IH as (a & rest & -> & Ha & Hrest).
      exists (c :: a), rest. repeat split; [|assumption].
      unfold free in *. cbn [forallb]. rewrite Ha.
      now rewrite (proj2 (N.eqb_neq c sep) Hc).
Qed.

Lemma split_from_free (ms : option nat) (a : str) :
  forall cur, free sep a = true -> split_from sep ms cur a = [cur ++ a].
Proof.
  induction a as [|c r IH]; intros cur Ha; simpl.
  - now rewrite app_nil_r.
  - unfold free in Ha. cbn [forallb] in Ha.
    apply andb_true_iff in Ha as [Hc Hr]. apply negb_true_iff in Hc.
    rewrite Hc, IH by assumption. now rewrite <- app_assoc.
Qed.

(** A split that gives two parts or more has cut at the first separator. *)
Lemma split_from_cons_inv (k : nat) (cur s x y : str) (tl : list str) :
  split_from sep (Some (S k)) cur s = x :: y :: tl ->
  exists a r,
    s = a ++ sep :: r /\ free sep a = true /\ x = cur ++ a
    /\ split_from sep (Some k) [] r = y :: tl.
Proof.
  destruct (span_sep s) as (a & rest & -> & Ha & [-> | (r & ->)]).
  - rewrite app_nil_r, split_from_free by assumption. discriminate.
  - rewrite split_from_next by exact Ha. intros H. injection H as <- H.
    now exists a, r.
Qed.

(** The first part of a split holds no separator and starts the string. *)
Lemma split_hd_free (s : str) :
  free sep (hd [] (split sep None s)) = true
  /\ exists rest, s = hd [] (split sep None s) ++ rest.
Proof.
  destruct (span_sep s) as (a & rest & -> & Ha & Hrest).
  unfold split. rewrite split_from_first by assumption. simpl.
  split; [assumption | now exists rest].
Qed.

Lemma free_app (a b : str) : free sep (a ++ b) = free sep a && free sep b.
Proof. apply forallb_app. Qed.

End SplitFacts.

(* ================================================================== *)
(** * The page key is never negative *)
(* ================================================================== *)

(** [int] of a string without a minus sign is not negative. *)
Lemma int_nonneg (s : str) (z : Z) :
  free DASH s = true -> int s = Some z -> (0 <= z)%Z.
Proof.
  intros Hs. unfold int.
  destruct (lstrip_by_split is_int_space s) as (w1 & E1 & _).
  destruct (rstrip_by_split is_int_space (lstrip_by is_int_space s))
    as (w2 & E2 & _).
  destruct (rstrip_by is_int_space (lstrip_by is_int_space s)) as [|c r];
    [discriminate|].
  assert (Hc : (c =? 45)%N = false).
  { rewrite E1, E2 in Hs. rewrite !free_app in Hs. unfold free in Hs.
    cbn [forallb] in Hs. rewrite !andb_true_iff in Hs.
    destruct Hs as (_ & (Hc & _) & _). now apply negb_true_iff in Hc. }
  rewrite Hc. destruct (c =? 43)%N.
  - destruct (digits_value 0 false r); [|discriminate].
    intros H. injection H as <-. lia.
  - destruct (digits_value 0 false (c :: r)); [|discriminate].
    intros H. injection H as <-. lia.
Qed.

(** A page never sorts as a negative number: the key is [Infinity] or a
    number that is not negative, because the first component of the split at
    dashes holds no minus sign. *)
Theorem page_sort_key_nonneg (p : option str) (z : Z) :
  page_sort_key p = Finite z -> (0 <= z)%Z.
Proof.
  unfold page_sort_key. destruct p as [[|c r]|]; try discriminate.
  destruct (int (hd [] (split DASH None (c :: r)))) as [z'|] eqn:E;
    [|discriminate].
  intros H. injection H as <-.
  exact (@int_nonneg _ _ (proj1 (split_hd_free DASH (c :: r))) E).
Qed.

Lemma page_sort_key_nonneg_witness :
  page_sort_key (Some (lit "12-13")) = Finite 12 /\ (0 <= 12)%Z.
Proof.
  split; [reflexivity|].
  refine (@page_sort_key_nonneg (Some (lit "12-13")) 12 _).
  vm_compute. reflexivity.
Defined.

(* ================================================================== *)
(** * The fields of an entry *)
(* ================================================================== *)

Section Fields.

Lemma span_all (p : char -> bool) (s : str) :
  forallb p (fst (span p s)) = true.
Proof.
  induction s as [|c r IH]; [reflexivity|]. simpl.
  destruct (p c) eqn:E; [|reflexivity].
  destruct (span p r) as [a b]. simpl in *. now rewrite E.
Qed.

Lemma page_match_at_shape (s g : str) :
  page_match_at s = Some g -> g <> [] /\ page_chars g = true.
Proof.
  unfold page_match_at.
  destruct (after_prefix (lit "Seite") s) as [r|]; [|discriminate].
  destruct (span is_space r) as [ws r1].
  destruct (is_empty ws); [discriminate|].
  pose proof (span_all (fun c => is_decimal c || (c =? DASH)%N) r1) as Hall.
  destruct (span _ r1) as [g' rest]. simpl in Hall.
  destruct (is_empty g') eqn:E; [discriminate|].
  intros H. injection H as <-. split; [now apply is_empty_false | exact Hall].
Qed.

(** A page that the pattern captures is a non-empty string of digits and
    dashes. *)
Lemma page_search_shape (s g : str) :
  page_search s = Some g -> g <> [] /\ page_chars g = true.
Proof.
  induction s as [|c r IH].
  - intros H. vm_compute in H. discriminate.
  - cbn [page_search]. destruct (page_match_at (c :: r)) eqn:E; [|exact IH].
    intros H. injection H as <-. now apply (page_match_at_shape (c :: r)).
Qed.

Lemma lookup_In (k v : str) (table : list (str * str)) :
  lookup k table = Some v -> In v (map snd table).
Proof.
  induction table as [|[k' v'] r IH]; simpl; [discriminate|].
  destruct (str_eqb k' k).
  - intros H. injection H as <-. now left.
  - intros H. right. now apply IH.
Qed.

Lemma zfill_length (width : nat) (s : str) :
  (width <= length (zfill width s))%nat.
Proof.
  unfold zfill. destruct (Nat.leb_spec width (length s)) as [H | H];
    [assumption|].
  destruct s as [|c r]; [rewrite repeat_length; cbn [length] in *; lia|].
  destruct ((c =? 43) || (c =? 45))%N; cbn [length];
    rewrite length_app, repeat_length; cbn [length] in *;
    unfold char in *; lia.
Qed.

Lemma free_repeat (sep c : char) (n : nat) :
  c <> sep -> free sep (repeat c n) = true.
Proof.
  intros H. induction n as [|n IH]; [reflexivity|].
  unfold free in *. simpl. rewrite IH.
  now rewrite (proj2 (N.eqb_neq c sep) H).
Qed.

Lemma zfill_free (width : nat) (s : str) :
  free SPACE s = true -> free SPACE (zfill width s) = true.
Proof.
  intros H. unfold zfill. destruct (width <=? length s)%nat; [assumption|].
  assert (Hz : forall n, free SPACE (repeat 48%N n) = true)
    by (intros n; apply free_repeat; discriminate).
  destruct s as [|c r]; [apply Hz|].
  unfold free in H. cbn [forallb] in H. apply andb_true_iff in H as [Hc Hr].
  destruct ((c =? 43) || (c =? 45))%N.
  - unfold free. cbn [forallb]. rewrite Hc. cbn [andb].
    fold (free SPACE (repeat 48%N (width - length (c :: r)) ++ r)).
    rewrite free_app, Hz. exact Hr.
  - rewrite free_app, Hz. unfold free. cbn [forallb]. now rewrite Hc, Hr.
Qed.

(** What [normalize_timestamp] returns: year, month number, day and time
    with their separators.  The month is a number of the table, the day has
    two characters or more, and neither year nor day holds a space. *)
Lemma normalize_timestamp_shape (raw iso : str) :
  normalize_timestamp raw = Ret iso ->
  exists y mm d t,
    iso = y ++ lit "-" ++ mm ++ lit "-" ++ d ++ lit "T" ++ t
    /\ In mm month_numbers
    /\ free SPACE y = true /\ free SPACE d = true /\ (2 <= length d)%nat.
Proof.
  intros H. apply normalize_timestamp_inv in H
    as (d & m & yt & y & t & mm & Hg & Hyt & Hl & ->).
  exists y, mm, (zfill 2 d), t. split; [reflexivity|].
  split; [exact (lookup_In _ _ Hl)|].
  unfold groups_after_comma in Hg.
  destruct (split COMMA (Some 1%nat) raw) as [|w [|rest [|? ?]]];
    try discriminate.
  injection Hg as Hg. unfold split in Hg, Hyt.
  apply split_from_cons_inv in Hg as (a & r & _ & Ha & -> & _).
  destruct (split_from_cons_inv _ _ _ _ Hyt) as (b & r' & _ & Hb & -> & _).
  repeat split; [exact Hb | now apply zfill_free | apply zfill_length].
Qed.

End Fields.

(** Every entry of the result has a page that is absent or a non-empty
    string of digits and dashes, and a timestamp that is absent or of the
    form [<year>-<month>-<day>T<time>] with a month number of the table, a
    day of two characters or more, and no space in year and day. *)
Theorem entry_fields_shape (export : str) (m : dict) (title : str)
    (items : list entry) (e : entry) :
  parse_kindle_annotations export = Ret m ->
  In (title, items) m -> In e items ->
  (forall g, page e = Some g -> g <> [] /\ page_chars g = true)
  /\ (forall iso, timestamp e = Some iso ->
        exists y mm d t,
          iso = y ++ lit "-" ++ mm ++ lit "-" ++ d ++ lit "T" ++ t
          /\ In mm month_numbers
          /\ free SPACE y = true /\ free SPACE d = true
          /\ (2 <= length d)%nat).
Proof.
  intros H Hin He. apply parse_spec in H as (recs & Hrecs & ->).
  apply in_map_iff in Hin as (t & Ht & _). injection Ht as <- <-.
  apply (Permutation_in _ (Permutation_sym (sort_by_perm key_lt page_key _)))
    in He.
  apply titled_In, in_map_iff in He as ([k te] & Hte & Hk).
  simpl in Hte. subst te.
  pose proof (records_inv _ _ _ Hrecs) as Hall.
  rewrite Forall_forall in Hall.
  destruct (Hall _ Hk) as (_ & _ & i' & Hr). simpl in Hr.
  destruct (read_record_inv _ _ Hr) as [_ Hinv].
  destruct (Hinv t e eq_refl) as (_ & _ & _ & _ & _ & Hp & Hts & _).
  split.
  - intros g Hg. rewrite Hg in Hp. symmetry in Hp.
    exact (page_search_shape _ Hp).
  - intros iso Hiso. rewrite Hiso in Hts. unfold meta_timestamp in Hts.
    destruct (timestamp_search _) as [raw|]; [|discriminate].
    destruct (normalize_timestamp raw) as [iso'| |] eqn:N; try discriminate.
    simpl in Hts. injection Hts as ->.
    exact (normalize_timestamp_shape _ N).
Qed.

Lemma entry_fields_shape_witness :
  let e := Entry (lit "Focus is the new IQ.") (Some (lit "42"))
                 (Some (lit "2025-01-1.T09:00:00")) in
  (forall g, page e = Some g -> g <> [] /\ page_chars g = true)
  /\ (forall iso, timestamp e = Some iso ->
        exists y mm d t,
          iso = y ++ lit "-" ++ mm ++ lit "-" ++ d ++ lit "T" ++ t
          /\ In mm month_numbers
          /\ free SPACE y = true /\ free SPACE d = true
          /\ (2 <= length d)%nat).
Proof.
  refine (@entry_fields_shape deep_work_export
            [ (lit "Deep Work",
               [ Entry (lit "Focus is the new IQ.") (Some (lit "42"))
                       (Some (lit "2025-01-1.T09:00:00")) ]) ]
            (lit "Deep Work") _ _ _ _ _).
  - vm_compute. reflexivity.
  - left. reflexivity.
  - left. reflexivity.
Defined.

(* ================================================================== *)
(** * How a parse ends *)
(* ================================================================== *)

Section Outcomes.

Implicit Types (lines : list str).

Lemma normalize_timestamp_raises (raw : str) (e : exn) :
  normalize_timestamp raw = Raise e ->
  e = ValueError \/ exists k, e = KeyError k /\ ~ In k german_months.
Proof.
  unfold normalize_timestamp.
  destruct (split COMMA (Some 1%nat) raw) as [|w [|rest [|? ?]]];
    try (intros H; injection H as <-; now left).
  destruct (split SPACE (Some 2%nat) (strip rest)) as [|d [|m [|yt [|? ?]]]];
    try (intros H; injection H as <-; now left).
  destruct (split SPACE (Some 1%nat) yt) as [|y [|t [|? ?]]];
    try (intros H; injection H as <-; now left).
  destruct (lookup m months) as [mm|] eqn:L; [discriminate|].
  intros H. injection H as <-. right. exists m. split; [reflexivity|].
  now apply lookup_None.
Qed.

(** A pass of the outer loop raises only at a metadata line, and what it
    raises is what [normalize_timestamp] raises on the timestamp found
    there. *)
Lemma read_record_raises lines i (e : exn) :
  read_record lines i = Raise e ->
  startswith (strip (nth (i + 1) lines [])) META_PREFIX = true
  /\ exists raw,
       timestamp_search (strip (nth (i + 1) lines [])) = Some raw
       /\ normalize_timestamp raw = Raise e.
Proof.
  unfold read_record.
  destruct (is_empty (normalize_title (nth i lines []))); [discriminate|].
  destruct (startswith (strip (nth (i + 1) lines [])) META_PREFIX);
    [|discriminate].
  cbn [negb orb]. unfold meta_timestamp.
  destruct (timestamp_search _) as [raw|]; simpl.
  - destruct (normalize_timestamp raw) as [ts| e' |] eqn:N; simpl.
    + rewrite body_loop_spec by lia. simpl.
      destruct (is_empty _); discriminate.
    + intros H. injection H as <-. split; [reflexivity|]. now exists raw.
    + discriminate.
  - rewrite body_loop_spec by lia. simpl. destruct (is_empty _); discriminate.
Qed.

Lemma records_raises fuel lines :
  forall i (e : exn),
    records fuel lines i = Raise e ->
    exists k, (k + 2 < length lines)%nat /\ read_record lines k = Raise e.
Proof.
  induction fuel as [|fuel IH]; intros i e; rewrite records_eq;
    destruct (i + 2 <? length lines)%nat eqn:Hc; try discriminate.
  apply Nat.ltb_lt in Hc.
  destruct (read_record lines i) as [[i' r]| e' |] eqn:E; simpl.
  - destruct (records fuel lines i') as [rest| e' |] eqn:R; simpl;
      try discriminate.
    intros H. injection H as <-. exact (IH _ _ R).
  - intros H. injection H as <-. now exists i.
  - discriminate.
Qed.

End Outcomes.

(** A parse returns, or it raises what [normalize_timestamp] raises on the
    timestamp of a metadata line of the export: [ValueError], or [KeyError]
    with a month name that is not in the table.  It raises nothing else. *)
Theorem parse_outcomes (export : str) :
  (exists m, parse_kindle_annotations export = Ret m)
  \/ (exists e line raw,
        parse_kindle_annotations export = Raise e
        /\ In line (lines_of export)
        /\ startswith (strip line) META_PREFIX = true
        /\ timestamp_search (strip line) = Some raw
        /\ normalize_timestamp raw = Raise e
        /\ (e = ValueError
            \/ exists k, e = KeyError k /\ ~ In k german_months)).
Proof.
  pose proof (parse_fuel export) as Hfuel.
  unfold parse_kindle_annotations in *. fold (lines_of export) in *.
  rewrite scan_loop_records in *.
  destruct (records (length (lines_of export)) (lines_of export) 0)
    as [recs| e |] eqn:R; simpl in *.
  - left. eexists. reflexivity.
  - right. apply records_raises in R as (k & Hk & Hr).
    apply read_record_raises in Hr as (Hmeta & raw & Hts & Hn).
    exists e, (nth (k + 1) (lines_of export) []), raw.
    repeat split; try assumption.
    + apply nth_In. lia.
    + exact (normalize_timestamp_raises _ Hn).
  - congruence.
Qed.

Example parse_bad_month :
  parse_kindle_annotations bad_month_export = Raise (KeyError (lit "May")).
Proof. vm_compute. reflexivity. Qed.

(* ================================================================== *)
(** * Exports without records *)
(* ================================================================== *)

Lemma records_none fuel lines :
  (forall line, In line lines -> startswith (strip line) META_PREFIX = false) ->
  forall i, (length lines - i <= fuel)%nat -> records fuel lines i = Ret [].
Proof.
  intros Hno. induction fuel as [|fuel IH]; intros i Hf; rewrite records_eq;
    destruct (i + 2 <? length lines)%nat eqn:Hc; try reflexivity;
    apply Nat.ltb_lt in Hc; try lia.
  rewrite read_record_skip.
  - simpl. rewrite IH by lia. reflexivity.
  - right. apply Hno. apply nth_In. lia.
Qed.

(** An export of two lines or fewer, and an export none of whose lines
    starts with the metadata prefix, give the empty result and no
    exception. *)
Theorem parse_without_records (export : str) :
  (length (lines_of export) <= 2)%nat
  \/ (forall line, In line (lines_of export) ->
                   startswith (strip line) META_PREFIX = false) ->
  parse_kindle_annotations export = Ret [].
Proof.
  intros H. apply parse_spec. exists []. split; [|reflexivity].
  destruct H as [H | H].
  - rewrite records_eq.
    destruct (Nat.ltb_spec (0 + 2) (length (lines_of export))); [lia|].
    reflexivity.
  - apply records_none; [assumption | lia].
Qed.

Lemma parse_without_records_witness :
  parse_kindle_annotations
    (join [NEWLINE] [lit "Deep Work"; lit "- Deine Markierung auf Seite 42"])
  = Ret []
  /\ parse_kindle_annotations
       (join [NEWLINE] [lit "Deep Work"; lit ""; lit "Focus."; lit ""])
     = Ret [].
Proof.
  split; apply parse_without_records.
  - left. vm_compute. lia.
  - right. intros line Hl. vm_compute in Hl.
    repeat (destruct Hl as [<- | Hl]; [vm_compute; reflexivity|]).
    destruct Hl.
Defined.

(** A record is only found when three lines or more follow its title line,
    so a result that is not empty comes from an export of four lines or
    more. *)
Theorem parse_needs_four_lines (export : str) (m : dict) :
  parse_kindle_annotations export = Ret m -> m <> [] ->
  (4 <= length (lines_of export))%nat.
Proof.
  intros H Hm. apply parse_spec in H as (recs & Hrecs & ->).
  destruct recs as [|[k [t e]] rest]; [now elim Hm|].
  destruct (@records_have_text _ _ _ _ k t e Hrecs (or_introl eq_refl))
    as (_ & _ & _ & Hk).
  assert (Hrun : body_run (lines_of export) (k + 3) <> [])
    by (intros E; rewrite E in Hk; now apply Hk).
  unfold body_run in Hrun.
  destruct (Nat.le_gt_cases (length (lines_of export)) (k + 3)) as [Hle | Hgt];
    [|lia].
  rewrite skipn_all2 in Hrun by exact Hle. now elim Hrun.
Qed.

Lemma parse_needs_four_lines_witness :
  (4 <= length (lines_of deep_work_export))%nat.
Proof.
  refine (@parse_needs_four_lines deep_work_export
            [ (lit "Deep Work",
               [ Entry (lit "Focus is the new IQ.") (Some (lit "42"))
                       (Some (lit "2025-01-1.T09:00:00")) ]) ] _ _).
  - vm_compute. reflexivity.
  - discriminate.
Defined.
